(** * gulp-begin: configuration resolution, task registry and dev-loop supervisor

    A shallow embedding of [gulp-begin.js] (and of the earlier copy of the
    same module kept in the repository) together with the properties of the
    specification that can be settled on it.

    Layout: JavaScript values and the lodash operations the module calls;
    the host interface (Node's [path] and [process]); configuration
    resolution; file sets; the task table, the exclusion filter and the
    registration loop; the supervisor body and its watch handlers; then the
    theorems. *)

From Stdlib Require Import List String Ascii ZArith Lia Bool Arith.
From Stdlib Require Import DecimalString DecimalNat.
Import ListNotations.
Open Scope string_scope.

(* ================================================================== *)
(** ** JavaScript values *)

(** Objects carry the class the program can tell apart: plain objects,
    arrays, and the wrapper [Object(p)] builds around a primitive.  An
    array is an object whose indices are the decimal keys ["0"], ["1"], ...
    exactly as lodash's [baseMerge] sees it through [keysIn]. *)
Inductive prim := PBool (b : bool) | PNum (z : Z) | PStr (s : string).

Inductive kind := KPlain | KArray | KBoxed (p : prim).

(** Values are trees: no sharing between sub-objects and no functions.
    Numbers are the integers. *)
#[warnings="-register-all"]
Inductive value :=
| VUndef
| VNull
| VBool (b : bool)
| VNum (z : Z)
| VStr (s : string)
| VObj (k : kind) (ps : list (string * value)).

Definition props := list (string * value).

Fixpoint lookup (k : string) (ps : props) : option value :=
  match ps with
  | [] => None
  | (k', v) :: r => if String.eqb k k' then Some v else lookup k r
  end.

(** [object[key]] on the own properties: [undefined] when absent. *)
Definition get (ps : props) (k : string) : value :=
  match lookup k ps with Some v => v | None => VUndef end.

(** [object[key] = v]: an existing key keeps its place, a new one is
    appended. *)
Fixpoint set (k : string) (v : value) (ps : props) : props :=
  match ps with
  | [] => [(k, v)]
  | (k', v') :: r =>
      if String.eqb k k' then (k, v) :: r else (k', v') :: set k v r
  end.

Definition keys (ps : props) : list string := map fst ps.

Definition index_key (n : nat) : string :=
  NilEmpty.string_of_uint (Nat.to_uint n).

Fixpoint indexed (n : nat) (l : list value) : props :=
  match l with
  | [] => []
  | v :: r => (index_key n, v) :: indexed (S n) r
  end.

(** The array literal [[v0, v1, ...]]. *)
Definition arr (l : list value) : value := VObj KArray (indexed 0 l).

(** An array literal of strings. *)
Definition strs (l : list string) : value := arr (map VStr l).

(** The object literal [{k0: v0, ...}]. *)
Definition obj (ps : props) : value := VObj KPlain ps.

Definition isObject (v : value) : bool :=
  match v with VObj _ _ => true | _ => false end.

(** ToBoolean. *)
Definition truthy (v : value) : bool :=
  match v with
  | VUndef | VNull => false
  | VBool b => b
  | VNum z => negb (Z.eqb z 0)
  | VStr s => negb (String.eqb s "")
  | VObj _ _ => true
  end.

Fixpoint chars (s : string) : list value :=
  match s with
  | EmptyString => []
  | String c r => VStr (String c EmptyString) :: chars r
  end.

(** [v[k]] for a [v] that is neither [null] nor [undefined].  No key this
    program reads names an inherited member, an index or [length], so only
    the own properties of objects answer. *)
Definition prop (v : value) (k : string) : value :=
  match v with
  | VObj _ ps => get ps k
  | _ => VUndef
  end.

(** [k in Object(v)] for the keys this program asks about. *)
Definition has (v : value) (k : string) : bool :=
  match v with
  | VObj _ ps => match lookup k ps with Some _ => true | None => false end
  | _ => false
  end.

(** Exceptions the module can raise. *)
Inductive error :=
| TypeError
| ChildFailed (status : Z).

Inductive result (A : Type) :=
| Ok (a : A)
| Throw (e : error).
Arguments Ok {A} a.
Arguments Throw {A} e.

Definition bind {A B} (r : result A) (f : A -> result B) : result B :=
  match r with Ok a => f a | Throw e => Throw e end.

Notation "x <- c ;; k" := (bind c (fun x => k))
  (at level 61, c at next level, right associativity).

(** [base.key] as an expression of the program: reading a property of
    [null] or [undefined] raises. *)
Definition member (base : value) (k : string) : result value :=
  match base with
  | VUndef | VNull => Throw TypeError
  | _ => Ok (prop base k)
  end.

(* ================================================================== *)
(** ** lodash

    The functions of lodash 4 the module calls, on the values above. *)

Section MergeProps.
Variable merge : value -> value -> value.

(** The loop of [baseMerge(object, source)]: for every key of the source,
    in order, the key of the object receives the merged value. *)
Fixpoint mergeProps (ops sps : props) : props :=
  match sps with
  | [] => ops
  | (k, s) :: r => mergeProps (set k (merge (get ops k) s) ops) r
  end.
End MergeProps.

(** The value a key ends with when [_.defaultsDeep] meets the object's
    value [objValue] and the default [srcValue] there ([baseMergeDeep] and
    [baseMerge] under [customDefaultsMerge]):
    - a default that is an object or array is merged key by key into an
      object value, cloned when the object has nothing ([undefined]), and
      ignored when the object holds anything else;
    - any other default is taken only when the object has [undefined]. *)
Fixpoint mergeValue (objValue srcValue : value) {struct srcValue} : value :=
  match srcValue with
  | VObj sk sps =>
      match objValue with
      | VObj ok ops => VObj ok (mergeProps mergeValue ops sps)
      | VUndef => VObj sk (mergeProps mergeValue [] sps)
      | _ => objValue
      end
  | _ =>
      match objValue with
      | VUndef => srcValue
      | _ => objValue
      end
  end.

Definition baseMerge : props -> props -> props := mergeProps mergeValue.

(** [Object(v)]. *)
Definition toObject (v : value) : value :=
  match v with
  | VUndef | VNull => VObj KPlain []
  | VObj _ _ => v
  | VStr s => VObj (KBoxed (PStr s)) (indexed 0 (chars s))
  | VBool b => VObj (KBoxed (PBool b)) []
  | VNum z => VObj (KBoxed (PNum z)) []
  end.

(** [_.defaultsDeep(object, source)] for a [source] that is an object
    literal with properties [sps]: the value returned. *)
Definition defaultsDeep (object : value) (sps : props) : value :=
  match toObject object with
  | VObj k ops => VObj k (baseMerge ops sps)
  | o => o
  end.


(** [baseGet]: follow [path] while the value is neither [null] nor
    [undefined]. *)
Fixpoint baseGet (v : value) (path : list string) : value :=
  match path with
  | [] => v
  | k :: p =>
      match v with
      | VUndef | VNull => VUndef
      | _ => baseGet (prop v k) p
      end
  end.

(** [_.get(object, whole, dflt)] where [path] is [stringToPath(whole)]: a
    key spelled [whole] on the object itself is read directly ([isKey]). *)
Definition lodash_get (object : value) (whole : string) (path : list string)
    (dflt : value) : value :=
  let r :=
    match object with
    | VUndef | VNull => VUndef
    | _ => if has object whole then prop object whole else baseGet object path
    end in
  match r with VUndef => dflt | _ => r end.

(** The values of a collection as [_.map] and [_.includes] walk them:
    the elements of an array, the property values of an object, the
    characters of a string, nothing for any other value. *)
Definition collection_values (c : value) : list value :=
  match c with
  | VObj _ ps => map snd ps
  | VStr s => chars s
  | _ => []
  end.

Definition is_string (s : string) (v : value) : bool :=
  match v with VStr t => String.eqb t s | _ => false end.

Definition substring_of (needle hay : string) : bool :=
  match String.index 0 needle hay with Some _ => true | None => false end.

(** [_.includes(collection, s)] for a string [s]: substring search in a
    string, SameValueZero against the values otherwise. *)
Definition includes (c : value) (s : string) : bool :=
  match c with
  | VStr hay => substring_of s hay
  | _ => existsb (is_string s) (collection_values c)
  end.

(** [_.difference(xs, ys)] for an array [xs] of strings: the strings of
    [xs] that SameValueZero finds nowhere in [ys], in the order of [xs]. *)
Definition difference (xs : list string) (ys : list value) : list string :=
  filter (fun x => negb (existsb (is_string x) ys)) xs.

(** [_.flatten(array)]: one level. *)
Definition flatten (vs : list value) : list value :=
  List.concat (map (fun v => match v with
                        | VObj KArray ps => map snd ps
                        | _ => [v]
                        end) vs).

(** [array.map(f)] exists on arrays only; calling it on anything else
    raises. *)
Definition array_elements (v : value) : result (list value) :=
  match v with
  | VObj KArray ps => Ok (map snd ps)
  | _ => Throw TypeError
  end.

Fixpoint mapM {A B} (f : A -> result B) (l : list A) : result (list B) :=
  match l with
  | [] => Ok []
  | a :: r => b <- f a ;; bs <- mapM f r ;; Ok (b :: bs)
  end.

(** [array[key]] for an array of strings and a string key: an element for
    an index, the length for ["length"], [undefined] for any other key
    that is not an inherited member. *)
Definition array_member (l : list string) (k : string) : value :=
  if String.eqb k "length" then VNum (Z.of_nat (List.length l))
  else prop (strs l) k.

(* ================================================================== *)
(** ** The host: Node's [path] and [process] *)

Class Host := {
  (** [path.join(...segments)] on strings. *)
  path_join : list string -> string;
  (** [path.relative(from, to)]. *)
  path_relative : string -> string -> string;
  (** [process.cwd()]. *)
  process_cwd : string;
  (** [process.env.PORT]: a string, or [None] when unset. *)
  env_PORT : option string;
  (** Number::toString. *)
  number_to_string : Z -> string;
  (** [process.platform]. *)
  platform : string
}.

(** A host for concrete runs: a POSIX machine in [/home/app] with [PORT]
    unset.  Its [path.join] is exact on normal relative segments (no [.],
    [..] or doubled separators), which is all the runs below join; its
    [path.relative] is exact from a one-segment relative directory to a
    path under the working directory. *)
Definition posix_join (segments : list string) : string :=
  match filter (fun s => negb (String.eqb s "")) segments with
  | [] => "."
  | l => String.concat "/" l
  end.

Definition strip_prefix (p s : string) : string :=
  if String.prefix p s
  then String.substring (String.length p) (String.length s - String.length p) s
  else s.

Definition posix_relative (cwd from to : string) : string :=
  "../" ++ strip_prefix (cwd ++ "/") to.

Definition decimal (z : Z) : string := NilZero.string_of_int (Z.to_int z).

Definition posix_host : Host := {|
  path_join := posix_join;
  path_relative := posix_relative "/home/app";
  process_cwd := "/home/app";
  env_PORT := None;
  number_to_string := decimal;
  platform := "linux"
|}.

Section Program.
Context {host : Host}.

(** ToString, as [`${v}`] and ['' + v] apply it.  An array prints its
    elements joined by commas. *)
Fixpoint to_string (v : value) : string :=
  match v with
  | VUndef => "undefined"
  | VNull => "null"
  | VBool true => "true"
  | VBool false => "false"
  | VNum z => number_to_string z
  | VStr s => s
  | VObj KPlain _ => "[object Object]"
  | VObj KArray ps =>
      String.concat ","
        (map (fun kv : string * value =>
                let (_, e) := kv in
                match e with
                | VUndef | VNull => ""
                | _ => to_string e
                end) ps)
  | VObj (KBoxed (PBool true)) _ => "true"
  | VObj (KBoxed (PBool false)) _ => "false"
  | VObj (KBoxed (PNum z)) _ => number_to_string z
  | VObj (KBoxed (PStr s)) _ => s
  end.

(** [path.join] applied to values: anything but strings raises. *)
Fixpoint all_strings (vs : list value) : option (list string) :=
  match vs with
  | [] => Some []
  | VStr s :: r =>
      match all_strings r with Some l => Some (s :: l) | None => None end
  | _ :: _ => None
  end.

Definition join_values (vs : list value) : result string :=
  match all_strings vs with
  | Some l => Ok (path_join l)
  | None => Throw TypeError
  end.

(* ================================================================== *)
(** ** Configuration resolution *)

(** The object literal of defaults; [watch0] is the value of
    [path.join(_.get(options, 'server.cwd', 'src/server'), '**/*.js')]. *)
Definition defaults (watch0 : string) : props :=
  [ ("root", VStr process_cwd);
    ("port", match env_PORT with Some p => VStr p | None => VUndef end);
    ("server", obj
       [ ("cwd", VStr "src/server");
         ("main", VStr "index.js");
         ("watch", strs [watch0; "*.js"]) ]);
    ("client", obj
       [ ("lib", VStr "bower_components");
         ("cwd", VStr "src/client");
         ("dest", VStr "public");
         ("html", obj [ ("src", strs ["*.html"]) ]);
         ("scripts", obj
            [ ("cwd", VStr "scripts");
              ("dest", VStr "app.min.js");
              ("lib", strs []);
              ("src", strs ["*.js"; "*/**/*.js"]) ]);
         ("styles", obj
            [ ("cwd", VStr "styles");
              ("dest", VStr "app.min.css");
              ("include", obj [ ("lib", strs []); ("src", strs ["styles"]) ]);
              ("src", strs ["styles.scss"]) ]);
         ("templates", obj
            [ ("cwd", VStr "views"); ("src", strs ["**/*.html"]) ]);
         ("images", obj
            [ ("cwd", VStr "images"); ("src", strs ["**/*.png"]) ]) ]);
    ("test", obj
       [ ("main", VStr "spec.js");
         ("watch", strs ["test/**/*.js"]) ]) ].

(** [_.get(options, 'server.cwd', 'src/server')]. *)
Definition server_cwd_of (options : value) : value :=
  lodash_get options "server.cwd" ["server"; "cwd"] (VStr "src/server").

(** The second argument of [_.defaultsDeep], evaluated before the call:
    its [path.join] raises when [server.cwd] is not a string. *)
Definition default_options (userOptions : value) : result props :=
  watch0 <- join_values [server_cwd_of userOptions; VStr "**/*.js"] ;;
  Ok (defaults watch0).

(** [options = _.defaultsDeep(options, {...})]. *)
Definition resolve (userOptions : value) : result value :=
  D <- default_options userOptions ;;
  Ok (defaultsDeep userOptions D).


(* ================================================================== *)
(** ** File sets *)

Record Files := {
  src_html : list string;
  src_templates : list string;
  src_scripts : list string;
  src_styles_main : list string;
  src_styles_include : list string;
  src_images : list string;
  lib_scripts : list string;
  lib_styles_include : list string
}.

Definition buildFiles (options scope : value) (type : string)
    : result (list string) :=
  client <- member options "client" ;;
  arr <- (if String.eqb type "lib"
          then lib <- member client "lib" ;; Ok [lib]
          else cwd <- member client "cwd" ;;
               scwd <- member scope "cwd" ;;
               Ok ((if truthy cwd then [cwd] else [])
                   ++ (if truthy scwd then [scwd] else []))%list) ;;
  patterns <- member scope type ;;
  elems <- array_elements patterns ;;
  mapM (fun file => join_values (arr ++ [file])%list) elems.

Definition buildSrc (options scope : value) := buildFiles options scope "src".
Definition buildLib (options scope : value) := buildFiles options scope "lib".

Definition files (options : value) : result Files :=
  client <- member options "client" ;;
  html <- member client "html" ;;
  f_html <- buildSrc options html ;;
  templates <- member client "templates" ;;
  f_templates <- buildSrc options templates ;;
  scripts <- member client "scripts" ;;
  f_scripts <- buildSrc options scripts ;;
  styles <- member client "styles" ;;
  f_main <- buildSrc options styles ;;
  include <- member styles "include" ;;
  include_src <- member include "src" ;;
  elems_src <- array_elements include_src ;;
  f_include <- mapM (fun file => cwd <- member client "cwd" ;;
                                 join_values [cwd; file]) elems_src ;;
  images <- member client "images" ;;
  f_images <- buildSrc options images ;;
  l_scripts <- buildLib options scripts ;;
  include_lib <- member include "lib" ;;
  elems_lib <- array_elements include_lib ;;
  l_include <- mapM (fun file => lib <- member client "lib" ;;
                                 join_values [lib; file]) elems_lib ;;
  Ok {| src_html := f_html; src_templates := f_templates;
        src_scripts := f_scripts; src_styles_main := f_main;
        src_styles_include := f_include; src_images := f_images;
        lib_scripts := l_scripts; lib_styles_include := l_include |}.

(* ================================================================== *)
(** ** Task names, the task table and the exclusion filter *)

(** [name = task => options.prefix ? `${options.prefix}_${task}` : task]
    on a task given as a string. *)
Definition name (options : value) (task : string) : string :=
  if truthy (prop options "prefix")
  then to_string (prop options "prefix") ++ "_" ++ task
  else task.

(** The same function on an arbitrary value, as [_.map(options.only, name)]
    calls it: without a prefix the value comes back as it is. *)
Definition name_value (options : value) (task : value) : value :=
  if truthy (prop options "prefix")
  then VStr (to_string (prop options "prefix") ++ "_" ++ to_string task)
  else task.

(** The callables of the task table. *)
Inductive body :=
| Html | Jshint | Scripts | Styles | Images | Server | Dev | Test
| Autotest | Docs | Changelog
| ExcludedWarning (taskName : string).

(** One element of a task's argument array: a dependency list or a
    function. *)
Inductive task_arg :=
| Deps (names : list string)
| Fn (b : body).

(** The object literal [defaultTasks], keys in insertion order. *)
Definition defaultTasks (options : value) : list (string * list task_arg) :=
  let name := name options in
  [ (name "html", [Fn Html]);
    (name "jshint", [Fn Jshint]);
    (name "scripts", [Deps [name "jshint"]; Fn Scripts]);
    (name "styles", [Fn Styles]);
    (name "images", [Fn Images]);
    (name "build", [Deps [name "html"; name "styles"; name "scripts";
                          name "images"]]);
    (name "server", [Deps [name "build"]; Fn Server]);
    (name "demon", [Fn Server]);
    (name "dev", [Fn Dev]);
    (name "test", [Deps [name "jshint"]; Fn Test]);
    (name "autotest", [Fn Autotest]);
    (name "docs", [Fn Docs]);
    (name "changelog", [Fn Changelog]) ].

Definition allDefaultTaskNames (options : value) : list string :=
  map fst (defaultTasks options).

(** [excludedTasks], computed once. *)
Definition excludedTasks (options : value) : value :=
  if truthy (prop options "exclude") then prop options "exclude"
  else if truthy (prop options "only") then
    let onlyDefaultTaskNames :=
      map (name_value options) (collection_values (prop options "only")) in
    strs (difference (allDefaultTaskNames options) onlyDefaultTaskNames)
  else arr [].

(** A task as gulp 3 keeps it: [fn = None] is the no-op the scheduler
    substitutes when no function is given. *)
Record Task := {
  t_name : string;
  t_dep : list string;
  t_fn : option body
}.

Definition registry := list Task.

Fixpoint find_task (n : string) (g : registry) : option Task :=
  match g with
  | [] => None
  | t :: r => if String.eqb n (t_name t) then Some t else find_task n r
  end.

Fixpoint put_task (t : Task) (g : registry) : registry :=
  match g with
  | [] => [t]
  | t' :: r =>
      if String.eqb (t_name t) (t_name t') then t :: r else t' :: put_task t r
  end.

(** [gulp.task(name, arg)] with one argument after the name: a function is
    the body, an array is the dependency list, nothing is neither. *)
Definition gulp_task (n : string) (arg : option task_arg) (g : registry)
    : registry :=
  match arg with
  | Some (Fn b) => put_task {| t_name := n; t_dep := []; t_fn := Some b |} g
  | Some (Deps d) => put_task {| t_name := n; t_dep := d; t_fn := None |} g
  | None => put_task {| t_name := n; t_dep := []; t_fn := None |} g
  end.

Definition isExcluded (options excluded : value) (taskName : string) : bool :=
  includes excluded taskName || includes excluded (name options taskName).

(** [task = (taskName, callback) => ...]. *)
Definition task (options excluded : value) (taskName : string)
    (callback : option task_arg) (g : registry) : registry :=
  if isExcluded options excluded taskName then
    if truthy (prop options "warnExclusions")
    then gulp_task taskName (Some (Fn (ExcludedWarning taskName))) g
    else g
  else gulp_task taskName callback g.

(** The registration loop: [task.apply(null, [name].concat(args))] binds
    [callback] to the first element of the argument array. *)
Definition register (options : value) (g : registry) : registry :=
  let excluded := excludedTasks options in
  fold_left (fun g (entry : string * list task_arg) =>
               task options excluded (fst entry) (hd_error (snd entry)) g)
            (defaultTasks options) g.

(* ================================================================== *)
(** ** Task bodies and watch handlers as effect traces *)

Record event := { ev_type : string; ev_path : string }.

(** The callbacks handed to [reloadable]. *)
Inductive reload_callback := GulpfileChanged | PackageChanged | BowerChanged.

(** The functions handed to [gulp.watch]. *)
Inductive handler :=
| Reloadable (file : string) (cb : reload_callback)
| LiveReload.

(** The second argument of [gulp.watch]: an array of task names to start,
    a function, or nothing. *)
Inductive watch_action :=
| Start (tasks : list string)
| Call (h : handler)
| NoAction.

Inductive close_handler := ExitWithChildCode.

(** The calls a body makes on its collaborators, in program order.  A
    timer carries the calls its callback makes when it fires. *)
#[warnings="-register-all"]
Inductive effect :=
| Warn (msg : string)
| Log (args : list value)
| ExecSync (cmd : string)
| Spawn (cmd : string) (args : list string) (on_close : close_handler)
| Watch (glob : value) (action : watch_action)
| Nodemon (script watch : value)
| Listen (port : Z)
| SetTimeout (ms : Z) (callback : list effect)
| Changed (files : list string)
| DelSync (patterns : list string)
| Src (patterns : list string)
| Pipe (plugin options : string)
| Dest (dir : value).

(** How a run ends short of returning: an exception, or [process.exit]. *)
Inductive stop :=
| Raised (e : error)
| Exited (code : Z).

(** A run: the calls made so far and either a value or the way it
    stopped. *)
Definition M (A : Type) : Type := (list effect * (A + stop))%type.

Definition ret {A} (a : A) : M A := ([], inl a).

Definition bindM {A B} (m : M A) (f : A -> M B) : M B :=
  match m with
  | (t, inl a) => let (t', r) := f a in ((t ++ t')%list, r)
  | (t, inr s) => (t, inr s)
  end.

Notation "x <~ c ;; k" := (bindM c (fun x => k))
  (at level 61, c at next level, right associativity).
Notation "c ;;; k" := (bindM c (fun _ => k))
  (at level 61, right associativity).

Definition emit (e : effect) : M unit := ([e], inl tt).
Definition exit {A} (code : Z) : M A := ([], inr (Exited code)).
Definition lift {A} (r : result A) : M A :=
  match r with Ok a => ret a | Throw e => ([], inr (Raised e)) end.

Definition trace {A} (m : M A) : list effect := fst m.

(** [log(...)]. *)
Definition log (args : list value) : M unit := emit (Log args).

(** [cp.execSync(cmd, ...)]: [sh] gives the exit status of the command; a
    non-zero status raises. *)
Definition execSync (sh : string -> Z) (cmd : string) : M unit :=
  emit (ExecSync cmd) ;;;
  if Z.eqb (sh cmd) 0 then ret tt else lift (Throw (ChildFailed (sh cmd))).

Definition gulp_command : string :=
  "gulp" ++ (if String.eqb platform "win32" then ".cmd" else "").

Definition run_callback (options : value) (sh : string -> Z)
    (cb : reload_callback) : M unit :=
  match cb with
  | GulpfileChanged =>
      log [VStr "gulpfile.js changed, reloading server..."] ;;;
      exit 0
  | PackageChanged =>
      log [VStr "package.json changed, installing packages..."] ;;;
      execSync sh "npm install" ;;;
      execSync sh "npm prune" ;;;
      exit 0
  | BowerChanged =>
      log [VStr "bower.json changed, installing packages..."] ;;;
      execSync sh "bower install" ;;;
      emit (Spawn gulp_command [name options "build"] ExitWithChildCode)
  end.

(** What a function registered with [gulp.watch] does on an event. *)
Definition run_handler (options : value) (sh : string -> Z) (h : handler)
    (ev : event) : M unit :=
  match h with
  | Reloadable file cb =>
      if substring_of file (ev_path ev) then run_callback options sh cb
      else ret tt
  | LiveReload =>
      log [VStr "livereload initiated"] ;;;
      emit (SetTimeout 1000
              [Changed [path_relative (to_string (prop options "port"))
                                      (ev_path ev)]])
  end.

Definition reloadable (file : string) (cb : reload_callback) : M unit :=
  emit (Watch (VStr file) (Call (Reloadable file cb))).

(** The supervisor body [server].  The third [gulp.watch] call is written
    [gulp.watch(_.flatten([...])[name('styles')])]: one argument, the
    flattened array indexed by the task name. *)
Definition server (options : value) (fs : Files) : M unit :=
  let name := name options in
  emit (Watch (strs (src_html fs)) (Start [name "html"])) ;;;
  emit (Watch (strs (src_scripts fs ++ src_templates fs ++ lib_scripts fs)%list)
              (Start [name "scripts"])) ;;;
  emit (Watch (array_member
                 (src_styles_main fs ++ src_styles_include fs
                  ++ lib_styles_include fs)%list
                 (name "styles"))
              NoAction) ;;;
  emit (Watch (strs (src_images fs)) (Start [name "images"])) ;;;
  reloadable "gulpfile.js" GulpfileChanged ;;;
  reloadable "package.json" PackageChanged ;;;
  reloadable "bower.json" BowerChanged ;;;
  srv <~ lift (member options "server") ;;
  main <~ lift (member srv "main") ;;
  watch <~ lift (member srv "watch") ;;
  emit (Nodemon main watch) ;;;
  log [VStr "app started on port"; prop options "port"] ;;;
  emit (Listen 35729) ;;;
  client <~ lift (member options "client") ;;
  dest <~ lift (member client "dest") ;;
  pattern <~ lift (join_values [dest; VStr "**/*"]) ;;
  emit (Watch (VStr pattern) (Call LiveReload)).

(** The [html] body of [gulp-begin.js]. *)
Definition html (options : value) (fs : Files) : M unit :=
  emit (Src (src_html fs)) ;;;
  emit (Pipe "htmlmin" "{collapseWhitespace: true}") ;;;
  client <~ lift (member options "client") ;;
  dest <~ lift (member client "dest") ;;
  emit (Dest dest).

(** The [html] body of the earlier copy of the module, which starts with
    [del.sync(files.src.html)]. *)
Definition earlier_html (options : value) (fs : Files) : M unit :=
  emit (DelSync (src_html fs)) ;;;
  html options fs.

(** The [autotest] body. *)
Definition autotest (options : value) : M unit :=
  srv <~ lift (member options "server") ;;
  w1 <~ lift (member srv "watch") ;;
  tst <~ lift (member options "test") ;;
  w2 <~ lift (member tst "watch") ;;
  emit (Watch (arr (flatten [w1; w2])) (Start ["test"])).

(** The body registered for an excluded task when [warnExclusions] is
    set. *)
Definition excluded_warning (taskName : string) : M unit :=
  emit (Warn ("Task <" ++ taskName ++ "> has been explicity excluded!")).

(** The task names a change event starts: every watch of the trace whose
    glob matches the path contributes the tasks of its action. *)
Fixpoint started (matches : value -> string -> bool) (t : list effect)
    (path : string) : list string :=
  match t with
  | [] => []
  | Watch glob (Start tasks) :: r =>
      if matches glob path then (tasks ++ started matches r path)%list
      else started matches r path
  | _ :: r => started matches r path
  end.


Definition is_deletion (e : effect) : bool :=
  match e with DelSync _ => true | _ => false end.

(** What running a registered function does, for the bodies modelled
    here; the transform pipelines are not. *)
Definition run (options : value) (fs : Files) (b : body) : option (M unit) :=
  match b with
  | Html => Some (html options fs)
  | Server => Some (server options fs)
  | Autotest => Some (autotest options)
  | ExcludedWarning taskName => Some (excluded_warning taskName)
  | _ => None
  end.

(** The exported function: resolve the options, derive the file sets,
    register the tasks on [gulp]. *)
Definition begin (g : registry) (userOptions : value) : result registry :=
  options <- resolve userOptions ;;
  _ <- files options ;;
  Ok (register options g).

End Program.

Notation "x <~ c ;; k" := (bindM c (fun x => k))
  (at level 61, c at next level, right associativity).
Notation "c ;;; k" := (bindM c (fun _ => k))
  (at level 61, right associativity).

(* ================================================================== *)
(** ** The [dev] body *)

(** The calls of the [dev] body on [child_process]. *)
Inductive dev_call :=
| DevExec (cmd : string)
| DevSpawn (cmd : string) (args : list string).

Section Dev.
Context {host : Host}.

(** [spawnChild]: spawn [gulp demon]; when that child closes with code 0,
    spawn again.  [codes] are the codes with which the successive
    children have closed so far (a child killed by a signal closes with
    [null], which is not 0, and counts as any non-zero code here); when
    they run out the last child is still running. *)
Fixpoint spawnChild (options : value) (codes : list Z) : list dev_call :=
  DevSpawn gulp_command [name options "demon"]
  :: match codes with
     | c :: r => if Z.eqb c 0 then spawnChild options r else []
     | [] => []
     end.

(** The [dev] body: [npm install] first, which raises on a non-zero
    status, then the respawn loop. *)
Definition dev (options : value) (sh : string -> Z) (codes : list Z)
    : list dev_call * option error :=
  if Z.eqb (sh "npm install") 0
  then (DevExec "npm install" :: spawnChild options codes, None)
  else ([DevExec "npm install"], Some (ChildFailed (sh "npm install"))).

End Dev.

Fixpoint leading_zeros (codes : list Z) : nat :=
  match codes with
  | c :: r => if Z.eqb c 0 then S (leading_zeros r) else 0
  | [] => 0
  end.

(** An optional string field: absent is [undefined]. *)
Definition optional_string (f : option string) : value :=
  match f with Some s => VStr s | None => VUndef end.

(** The path segment a [cwd] field contributes: none when it is absent or
    empty. *)
Definition segment (f : option string) : list string :=
  match f with
  | Some s => if String.eqb s "" then [] else [s]
  | None => []
  end.

Definition is_array (v : value) : bool :=
  match v with VObj KArray _ => true | _ => false end.


Definition is_digit (c : ascii) : bool :=
  existsb (Ascii.eqb c)
    ["0"; "1"; "2"; "3"; "4"; "5"; "6"; "7"; "8"; "9"]%char.

Fixpoint all_digits (s : string) : bool :=
  match s with
  | EmptyString => true
  | String c r => is_digit c && all_digits r
  end.

Fixpoint has_underscore (s : string) : bool :=
  match s with
  | EmptyString => false
  | String c r => Ascii.eqb c "_" || has_underscore r
  end.

(** The base names of the task table. *)
Definition base_names : list string :=
  ["html"; "jshint"; "scripts"; "styles"; "images"; "build"; "server";
   "demon"; "dev"; "test"; "autotest"; "docs"; "changelog"].

(** The task [gulp.task(n, arg)] records. *)
Definition made (n : string) (arg : option task_arg) : Task :=
  match arg with
  | Some (Fn b) => {| t_name := n; t_dep := []; t_fn := Some b |}
  | Some (Deps d) => {| t_name := n; t_dep := d; t_fn := None |}
  | None => {| t_name := n; t_dep := []; t_fn := None |}
  end.

(** Sample inputs for concrete runs. *)
Definition only_scripts_src : value :=
  obj [("client", obj [("scripts", obj [("src", strs ["a.js"])])])].


Definition server_cwd_app : value :=
  obj [("server", obj [("cwd", VStr "app")])].

(** The options of the repository's own [gulpfile.js]. *)
Definition gulpfile_options : value :=
  obj [("test", obj [("main", VStr "test/test.js")]);
       ("exclude", strs ["server"]);
       ("warnExclusions", VBool true)].

Definition exclude_server : value := obj [("exclude", strs ["server"])].


Definition prefix_p : value := obj [("prefix", VStr "p")].


(** The configuration a sample resolves to on the sample host
    ([undefined] if resolution raised). *)
Definition config_of (userOptions : value) : value :=
  match @resolve posix_host userOptions with
  | Ok options => options
  | Throw _ => VUndef
  end.

Definition default_config : value := Eval vm_compute in config_of VUndef.

Definition gulpfile_config : value :=
  Eval vm_compute in config_of gulpfile_options.

Definition default_files : Files :=
  {| src_html := ["src/client/*.html"];
     src_templates := ["src/client/views/**/*.html"];
     src_scripts := ["src/client/scripts/*.js";
                     "src/client/scripts/*/**/*.js"];
     src_styles_main := ["src/client/styles/styles.scss"];
     src_styles_include := ["src/client/styles"];
     src_images := ["src/client/images/**/*.png"];
     lib_scripts := [];
     lib_styles_include := [] |}.

Definition package_json_changed : event :=
  {| ev_type := "changed"; ev_path := "/home/app/package.json" |}.

Definition bower_json_changed : event :=
  {| ev_type := "changed"; ev_path := "/home/app/bower.json" |}.

Definition html_src_string : value :=
  obj [("client", obj [("html", obj [("src", VStr "index.html")])])].

Definition only_html_prefixed : value :=
  obj [("prefix", VStr "p"); ("only", strs ["html"])].

Definition exclude_html_prefixed : value :=
  obj [("prefix", VStr "p"); ("exclude", strs ["html"])].

Definition scripts_lib_sample : value :=
  obj [("client", obj [("scripts", obj [("lib", strs ["angular/angular.js"])])])].

(** The registry [gulpfile.js] hands to the module. *)
Definition gulpfile_registry : registry :=
  [{| t_name := "default"; t_dep := ["test"]; t_fn := None |}].

(** The value at a key path, [undefined] where the path leaves the
    objects. *)
Fixpoint get_path (v : value) (p : list string) : value :=
  match p with
  | [] => v
  | k :: r => get_path (prop v k) r
  end.


(** Nothing but objects and [undefined] stands on the way down [p]. *)
Fixpoint open_path (v : value) (p : list string) : bool :=
  match p with
  | [] => true
  | k :: r =>
      match v with
      | VUndef => true
      | VObj _ ps => open_path (get ps k) r
      | _ => false
      end
  end.

Definition defined (v : value) : bool :=
  match v with VUndef => false | _ => true end.

(** What [_.get(options, 'server.cwd', 'src/server')] finds below a
    [server] value [sv]. *)
Definition cwd_or_default (sv : value) : value :=
  match match sv with VObj _ ps => get ps "cwd" | _ => VUndef end with
  | VUndef => VStr "src/server"
  | r => r
  end.

(** Objects have no two properties of one key, at any depth. *)
Fixpoint nodupb (l : list string) : bool :=
  match l with
  | [] => true
  | k :: r => negb (existsb (String.eqb k) r) && nodupb r
  end.

Fixpoint wfb (v : value) : bool :=
  match v with
  | VObj _ ps =>
      nodupb (keys ps)
      && forallb (fun kv : string * value => let (_, e) := kv in wfb e) ps
  | _ => true
  end.

(* ================================================================== *)
(** * Properties *)

(** ** Concrete runs on the sample host *)

Example resolve_no_options :
  @resolve posix_host VUndef = Ok default_config
  /\ @resolve posix_host VNull = Ok default_config
  /\ @resolve posix_host (obj []) = Ok default_config.
Proof. repeat split; reflexivity. Qed.

Example files_default_config :
  @files posix_host default_config = Ok default_files.
Proof. reflexivity. Qed.

Example resolve_gulpfile_options :
  @resolve posix_host gulpfile_options = Ok gulpfile_config
  /\ get_path gulpfile_config ["test"; "main"] = VStr "test/test.js"
  /\ get_path gulpfile_config ["test"; "watch"] = strs ["test/**/*.js"].
Proof. repeat split; reflexivity. Qed.

(** The registration loop hands [gulp.task] the first element of a task's
    argument array only: [scripts] is registered with its dependency and
    no function, [demon] with the supervisor body. *)
Example begin_default_registry :
  (g <- @begin posix_host [] VUndef ;;
   Ok (find_task "scripts" g, find_task "demon" g))
  = Ok (Some {| t_name := "scripts"; t_dep := ["jshint"]; t_fn := None |},
        Some {| t_name := "demon"; t_dep := []; t_fn := Some Server |}).
Proof. reflexivity. Qed.

Example server_default_watches :
  firstn 4 (trace (@server posix_host default_config default_files))
  = [Watch (strs ["src/client/*.html"]) (Start ["html"]);
     Watch (strs ["src/client/scripts/*.js"; "src/client/scripts/*/**/*.js";
                  "src/client/views/**/*.html"]) (Start ["scripts"]);
     Watch VUndef NoAction;
     Watch (strs ["src/client/images/**/*.png"]) (Start ["images"])].
Proof. reflexivity. Qed.

(** ** Induction on values *)

Section ValueInd.
Variable P : value -> Prop.
Hypothesis P_undef : P VUndef.
Hypothesis P_null : P VNull.
Hypothesis P_bool : forall b, P (VBool b).
Hypothesis P_num : forall z, P (VNum z).
Hypothesis P_str : forall s, P (VStr s).
Hypothesis P_obj :
  forall k ps, Forall (fun kv => P (snd kv)) ps -> P (VObj k ps).

Fixpoint value_ind' (v : value) : P v :=
  match v with
  | VUndef => P_undef
  | VNull => P_null
  | VBool b => P_bool b
  | VNum z => P_num z
  | VStr s => P_str s
  | VObj k ps =>
      P_obj k ps
        ((fix all (l : list (string * value))
            : Forall (fun kv => P (snd kv)) l :=
            match l with
            | [] => Forall_nil _
            | kv :: r => Forall_cons kv (value_ind' (snd kv)) (all r)
            end) ps)
  end.
End ValueInd.

(** ** Property lists *)

Lemma lookup_set_same k v ps : lookup k (set k v ps) = Some v.
Proof.
  induction ps as [|[k' v'] r IH]; simpl.
  - now rewrite String.eqb_refl.
  - destruct (String.eqb k k') eqn:E; simpl.
    + now rewrite String.eqb_refl.
    + now rewrite E.
Qed.

Lemma lookup_set_other k k' v ps :
  k <> k' -> lookup k (set k' v ps) = lookup k ps.
Proof.
  intros Hne. induction ps as [|[k2 v2] r IH]; simpl.
  - apply String.eqb_neq in Hne. now rewrite Hne.
  - destruct (String.eqb k' k2) eqn:E; simpl.
    + apply String.eqb_eq in E. subst k2.
      apply String.eqb_neq in Hne. now rewrite Hne.
    + destruct (String.eqb k k2); auto.
Qed.

Lemma set_lookup_id k v ps : lookup k ps = Some v -> set k v ps = ps.
Proof.
  induction ps as [|[k' v'] r IH]; simpl; [discriminate|].
  destruct (String.eqb k k') eqn:E.
  - apply String.eqb_eq in E. subst. now intros [= ->].
  - intros H. now rewrite IH.
Qed.

Lemma get_set_same k v ps : get (set k v ps) k = v.
Proof. unfold get. now rewrite lookup_set_same. Qed.

Lemma get_set_other k k' v ps : k <> k' -> get (set k' v ps) k = get ps k.
Proof. intros H. unfold get. now rewrite lookup_set_other. Qed.

Lemma existsb_eqb_In k l : existsb (String.eqb k) l = true <-> In k l.
Proof.
  rewrite existsb_exists. split.
  - intros [x [Hin E]]. apply String.eqb_eq in E. now subst.
  - intros H. exists k. split; auto. apply String.eqb_refl.
Qed.

Lemma nodupb_NoDup l : nodupb l = true -> NoDup l.
Proof.
  induction l as [|k r IH]; simpl; intros H; constructor.
  - apply andb_prop in H as [H _]. intros Hin.
    apply existsb_eqb_In in Hin. rewrite Hin in H. discriminate.
  - apply andb_prop in H as [_ H]. auto.
Qed.

(** ** The merge loop *)

Section MergeLoop.
Variable m : value -> value -> value.

Lemma mergeProps_lookup_other k ops sps :
  ~ In k (keys sps) -> lookup k (mergeProps m ops sps) = lookup k ops.
Proof.
  revert ops. induction sps as [|[k' s] r IH]; intros ops Hn; simpl; auto.
  rewrite IH.
  - apply lookup_set_other. intros ->. apply Hn. now left.
  - intros Hin. apply Hn. now right.
Qed.

Lemma mergeProps_lookup_in k s ops sps :
  NoDup (keys sps) -> In (k, s) sps ->
  lookup k (mergeProps m ops sps) = Some (m (get ops k) s).
Proof.
  revert ops. induction sps as [|[k' s'] r IH]; intros ops Hnd Hin;
    simpl in *; [contradiction|].
  inversion Hnd as [|? ? Hnotin Hnd']; subst.
  destruct Hin as [[= -> ->]|Hin].
  - rewrite mergeProps_lookup_other by assumption.
    apply lookup_set_same.
  - rewrite IH by assumption.
    rewrite get_set_other; auto.
    intros ->. apply Hnotin. change k' with (fst (k', s)).
    now apply in_map.
Qed.

Lemma mergeProps_fixed ops sps :
  (forall k s, In (k, s) sps ->
               exists v, lookup k ops = Some v /\ m v s = v) ->
  mergeProps m ops sps = ops.
Proof.
  induction sps as [|[k s] r IH]; intros H; simpl; auto.
  destruct (H k s (or_introl eq_refl)) as [v [Hl Hm]].
  assert (E : set k (m (get ops k) s) ops = ops).
  { unfold get. rewrite Hl, Hm. now apply set_lookup_id. }
  rewrite E. apply IH. intros k' s' Hin. apply H. now right.
Qed.

Lemma mergeProps_idempotent ops sps :
  NoDup (keys sps) ->
  (forall k s u, In (k, s) sps -> m (m u s) s = m u s) ->
  mergeProps m (mergeProps m ops sps) sps = mergeProps m ops sps.
Proof.
  intros Hnd Hm. apply mergeProps_fixed. intros k s Hin.
  exists (m (get ops k) s). split.
  - now apply mergeProps_lookup_in.
  - eapply Hm; eauto.
Qed.
End MergeLoop.

Lemma wfb_obj k ps :
  wfb (VObj k ps) = true ->
  NoDup (keys ps) /\ (forall key v, In (key, v) ps -> wfb v = true).
Proof.
  simpl. intros H. apply andb_prop in H as [H1 H2]. split.
  - now apply nodupb_NoDup.
  - intros key v Hin. rewrite forallb_forall in H2. apply (H2 _ Hin).
Qed.

(** Merging the same defaults a second time changes nothing. *)
Lemma mergeValue_idempotent d :
  wfb d = true -> forall u, mergeValue (mergeValue u d) d = mergeValue u d.
Proof.
  induction d as [| | | | |k ps IH] using value_ind'; intros Hwf u;
    try (destruct u; reflexivity).
  apply wfb_obj in Hwf as [Hnd Hsub].
  assert (Hm : forall key s v, In (key, s) ps ->
             mergeValue (mergeValue v s) s = mergeValue v s).
  { intros key s v Hin. rewrite Forall_forall in IH.
    apply (IH _ Hin). eapply Hsub; eauto. }
  destruct u; simpl; try reflexivity;
    f_equal; apply mergeProps_idempotent; eauto.
Qed.

(** ** Index keys *)

Lemma index_key_inj a b : index_key a = index_key b -> a = b.
Proof.
  unfold index_key. intros H. apply Unsigned.to_uint_inj.
  assert (E : Some (Nat.to_uint a) = Some (Nat.to_uint b)).
  { rewrite <- !NilEmpty.usu. now rewrite H. }
  now injection E.
Qed.

Lemma index_key_head n c r : index_key n = String c r -> is_digit c = true.
Proof.
  unfold index_key. destruct (Nat.to_uint n); simpl; intros H;
    try discriminate; injection H as <- _; reflexivity.
Qed.

Lemma lookup_indexed_none k n l :
  (forall i, index_key i <> k) -> lookup k (indexed n l) = None.
Proof.
  intros H. revert n. induction l as [|v r IH]; intros n; simpl; auto.
  destruct (String.eqb k (index_key n)) eqn:E; auto.
  apply String.eqb_eq in E. exfalso. apply (H n). now symmetry.
Qed.

Lemma not_index_key k c r :
  k = String c r -> is_digit c = false -> forall i, index_key i <> k.
Proof.
  intros -> Hd i H. apply index_key_head in H. congruence.
Qed.

Section Resolution.
Context {host : Host}.

(** ** The defaults *)

Lemma defaults_wf w : wfb (obj (defaults w)) = true.
Proof. unfold defaults. destruct env_PORT; reflexivity. Qed.

Lemma defaults_NoDup w : NoDup (keys (defaults w)).
Proof. apply nodupb_NoDup. reflexivity. Qed.

Lemma baseMerge_idempotent ops w :
  baseMerge (baseMerge ops (defaults w)) (defaults w)
  = baseMerge ops (defaults w).
Proof.
  destruct (wfb_obj _ _ (defaults_wf w)) as [Hnd Hsub].
  apply mergeProps_idempotent; auto.
  intros k s u Hin. apply mergeValue_idempotent. eapply Hsub; eauto.
Qed.

Lemma server_cwd_of_obj k ps :
  server_cwd_of (VObj k ps)
  = match lookup "server.cwd" ps with
    | Some VUndef => VStr "src/server"
    | Some v => v
    | None => cwd_or_default (get ps "server")
    end.
Proof.
  unfold server_cwd_of, lodash_get, has, prop, cwd_or_default, get.
  destruct (lookup "server.cwd" ps) as [v|]; [destruct v; reflexivity|].
  cbn [baseGet prop]. unfold get.
  destruct (lookup "server" ps) as [[| | | | |k0 ps0]|]; try reflexivity.
  cbn [prop]. unfold get. destruct (lookup "cwd" ps0) as [[]|]; reflexivity.
Qed.

Lemma merged_server_cwd_key ops w :
  lookup "server.cwd" (baseMerge ops (defaults w)) = lookup "server.cwd" ops.
Proof.
  apply mergeProps_lookup_other. simpl. intuition discriminate.
Qed.

Lemma merged_server ops w :
  exists d,
    get (baseMerge ops (defaults w)) "server"
    = mergeValue (get ops "server")
        (obj [("cwd", VStr "src/server"); ("main", VStr "index.js");
              ("watch", d)]).
Proof.
  eexists. unfold get at 1. unfold baseMerge.
  erewrite mergeProps_lookup_in; [reflexivity | apply defaults_NoDup |].
  simpl. right. right. left. reflexivity.
Qed.

Lemma merged_server_cwd sv d :
  cwd_or_default
    (mergeValue sv (obj [("cwd", VStr "src/server");
                         ("main", VStr "index.js"); ("watch", d)]))
  = cwd_or_default sv.
Proof.
  destruct sv as [| | | | |k ps]; try reflexivity.
  cbn [mergeValue obj]. unfold cwd_or_default, get at 1.
  erewrite mergeProps_lookup_in with (s := VStr "src/server");
    [| apply nodupb_NoDup; reflexivity | simpl; auto].
  simpl. destruct (get ps "cwd"); reflexivity.
Qed.

Lemma server_cwd_of_merged k ops w :
  server_cwd_of (VObj k (baseMerge ops (defaults w)))
  = server_cwd_of (VObj k ops).
Proof.
  rewrite !server_cwd_of_obj, merged_server_cwd_key.
  destruct (lookup "server.cwd" ops); auto.
  destruct (merged_server ops w) as [d Hd].
  rewrite Hd. apply merged_server_cwd.
Qed.

(** Resolution reads the same [server.cwd] from its own result as from
    the caller's options. *)
Lemma server_cwd_of_resolved x w :
  server_cwd_of (defaultsDeep x (defaults w)) = server_cwd_of x.
Proof.
  destruct x as [| |b|z|s|k ps]; unfold defaultsDeep, toObject.
  - now rewrite server_cwd_of_merged.
  - now rewrite server_cwd_of_merged.
  - now rewrite server_cwd_of_merged.
  - now rewrite server_cwd_of_merged.
  - rewrite server_cwd_of_merged, server_cwd_of_obj.
    unfold get.
    rewrite !lookup_indexed_none
      by (eapply not_index_key; [reflexivity | reflexivity]).
    reflexivity.
  - apply server_cwd_of_merged.
Qed.

Lemma defaultsDeep_idempotent x w :
  defaultsDeep (defaultsDeep x (defaults w)) (defaults w)
  = defaultsDeep x (defaults w).
Proof.
  unfold defaultsDeep at 2 3.
  destruct (toObject x) eqn:E;
    try (destruct x; simpl in E; discriminate).
  unfold defaultsDeep, toObject. now rewrite baseMerge_idempotent.
Qed.

(** C8.  Configuration resolution is idempotent: resolving the result of
    resolving [x] gives what resolving [x] gave, for every [x] (either the
    first resolution raises and so does the composition, or it returns a
    configuration that resolves to itself). *)
Theorem resolve_idempotent (x : value) :
  bind (resolve x) resolve = resolve x.
Proof.
  unfold resolve, default_options, join_values.
  destruct (server_cwd_of x) as [| | | |c|] eqn:E; simpl; try reflexivity.
  unfold resolve, default_options, join_values.
  rewrite server_cwd_of_resolved, E. simpl.
  now rewrite defaultsDeep_idempotent.
Qed.

End Resolution.

(** ** Key paths through a merge *)

Lemma lookup_In k v ps : lookup k ps = Some v -> In (k, v) ps.
Proof.
  induction ps as [|[k' v'] r IH]; simpl; [discriminate|].
  destruct (String.eqb k k') eqn:E.
  - apply String.eqb_eq in E. subst. intros [= ->]. now left.
  - intros H. right. auto.
Qed.

Lemma get_path_undef p : get_path VUndef p = VUndef.
Proof. induction p; simpl; auto. Qed.

Lemma get_path_not_object v p :
  isObject v = false -> p <> [] -> get_path v p = VUndef.
Proof.
  intros Hv Hp. destruct p as [|k r]; [contradiction|]. simpl.
  assert (E : prop v k = VUndef) by (destruct v; auto; discriminate).
  rewrite E. apply get_path_undef.
Qed.

Lemma mergeValue_objects k ops sk sps :
  mergeValue (VObj k ops) (VObj sk sps)
  = VObj k (mergeProps mergeValue ops sps).
Proof. reflexivity. Qed.

Lemma defaultsDeep_mergeValue x D :
  defaultsDeep x D = mergeValue (toObject x) (obj D).
Proof. unfold defaultsDeep. destruct x; reflexivity. Qed.

(** Below an object of the caller and an object of the defaults, the
    merged value at a key path is the merge of the two values there. *)
Lemma get_path_merge p :
  forall u d,
    wfb d = true ->
    isObject (get_path u p) = true -> isObject (get_path d p) = true ->
    get_path (mergeValue u d) p = mergeValue (get_path u p) (get_path d p).
Proof.
  induction p as [|k r IH]; intros u d Hwf Hu Hd; [reflexivity|].
  destruct u as [| | | | |ku ops];
    try (rewrite get_path_not_object in Hu;
         [simpl in Hu; discriminate | reflexivity | easy]).
  destruct d as [| | | | |kd sps];
    try (rewrite get_path_not_object in Hd;
         [simpl in Hd; discriminate | reflexivity | easy]).
  cbn [get_path prop] in *. rewrite mergeValue_objects. cbn [prop].
  destruct (lookup k sps) as [dk|] eqn:El.
  - apply wfb_obj in Hwf as [Hnd Hsub]. apply lookup_In in El as Hin.
    unfold get at 1.
    rewrite (mergeProps_lookup_in mergeValue k dk ops sps Hnd Hin).
    assert (Ed : get sps k = dk) by (unfold get; now rewrite El).
    rewrite Ed in *. apply IH; eauto.
  - assert (Ed : get sps k = VUndef) by (unfold get; now rewrite El).
    rewrite Ed, get_path_undef in Hd. discriminate.
Qed.


(** ** Arrays through a merge *)

Lemma lookup_indexed j a l :
  lookup (index_key j) (indexed a l)
  = if (a <=? j)%nat then nth_error l (j - a) else None.
Proof.
  revert a. induction l as [|v r IH]; intros a; simpl.
  - destruct (a <=? j)%nat; auto. now destruct (j - a).
  - destruct (String.eqb (index_key j) (index_key a)) eqn:E.
    + apply String.eqb_eq, index_key_inj in E. subst.
      rewrite Nat.leb_refl, Nat.sub_diag. reflexivity.
    + apply String.eqb_neq in E. rewrite IH.
      destruct (a <=? j)%nat eqn:L1; destruct (S a <=? j)%nat eqn:L2;
        try reflexivity.
      * apply Nat.leb_le in L1, L2.
        replace (j - a) with (S (j - S a)) by lia. reflexivity.
      * apply Nat.leb_le in L1. apply Nat.leb_gt in L2.
        assert (j = a) by lia. subst. contradiction.
      * apply Nat.leb_gt in L1. apply Nat.leb_le in L2. lia.
Qed.

Lemma indexed_app a l l' :
  indexed a (l ++ l')%list
  = (indexed a l ++ indexed (a + List.length l) l')%list.
Proof.
  revert a. induction l as [|v r IH]; intros a; simpl.
  - now rewrite Nat.add_0_r.
  - rewrite IH.
    replace (a + S (List.length r)) with (S a + List.length r) by lia.
    reflexivity.
Qed.

Lemma set_absent k v ps :
  lookup k ps = None -> set k v ps = (ps ++ [(k, v)])%list.
Proof.
  induction ps as [|[k' v'] r IH]; simpl; auto.
  destruct (String.eqb k k'); [discriminate|].
  intros H. now rewrite IH.
Qed.

Lemma mergeValue_defined_leaf v s :
  defined v = true -> mergeValue v (VStr s) = v.
Proof. destruct v; simpl; auto; discriminate. Qed.

(** Index by index: the caller's elements stay, the defaults fill the
    indices past the caller's last one. *)
Lemma mergeProps_indexed d :
  forall pre rest,
    forallb defined rest = true ->
    mergeProps mergeValue (indexed 0 (pre ++ rest)%list)
      (indexed (List.length pre) (map VStr d))
    = indexed 0 (pre ++ rest
                 ++ map VStr (skipn (List.length rest) d))%list.
Proof.
  induction d as [|x d IH]; intros pre rest Hdef.
  - rewrite skipn_nil. simpl. now rewrite app_nil_r.
  - cbn [map indexed mergeProps].
    assert (Hl : lookup (index_key (List.length pre))
                   (indexed 0 (pre ++ rest)%list)
                 = nth_error rest 0).
    { rewrite lookup_indexed. cbn [Nat.leb].
      now rewrite Nat.sub_0_r, nth_error_app2, Nat.sub_diag by lia. }
    unfold get. rewrite Hl.
    destruct rest as [|r0 rest]; cbn [nth_error].
    + change (mergeValue VUndef (VStr x)) with (VStr x).
      rewrite set_absent by exact Hl.
      rewrite app_nil_r.
      replace (indexed 0 pre ++ [(index_key (List.length pre), VStr x)])%list
        with (indexed 0 ((pre ++ [VStr x]) ++ [])%list)
        by (rewrite app_nil_r, indexed_app; reflexivity).
      replace (S (List.length pre)) with (List.length (pre ++ [VStr x])%list)
        by (rewrite length_app; simpl; lia).
      rewrite IH by reflexivity. simpl.
      now rewrite <- app_assoc.
    + simpl in Hdef. apply andb_prop in Hdef as [H0 Hdef].
      rewrite mergeValue_defined_leaf by assumption.
      rewrite set_lookup_id by exact Hl.
      replace (pre ++ r0 :: rest)%list with ((pre ++ [r0]) ++ rest)%list
        by (now rewrite <- app_assoc).
      replace (S (List.length pre)) with (List.length (pre ++ [r0])%list)
        by (rewrite length_app; simpl; lia).
      rewrite IH by assumption.
      now rewrite <- !app_assoc.
Qed.

Lemma mergeValue_arrays u d :
  forallb defined u = true ->
  mergeValue (arr u) (strs d)
  = arr (u ++ map VStr (skipn (List.length u) d)).
Proof.
  intros H. unfold arr, strs, arr. rewrite mergeValue_objects.
  f_equal. apply (mergeProps_indexed d [] u H).
Qed.

Section Configuration.
Context {host : Host}.

Lemma default_options_inv x D :
  default_options x = Ok D ->
  exists c, server_cwd_of x = VStr c /\ D = defaults (path_join [c; "**/*.js"]).
Proof.
  unfold default_options, join_values.
  destruct (server_cwd_of x) as [| | | |c|]; simpl; try discriminate.
  intros [= <-]. eauto.
Qed.


(** Resolution raises exactly when [server.cwd] is there and is not a
    string. *)
Lemma resolve_raises_iff x :
  resolve x = Throw TypeError <-> forall c, server_cwd_of x <> VStr c.
Proof.
  unfold resolve, default_options, join_values.
  destruct (server_cwd_of x); simpl; split; intros H;
    try reflexivity; try discriminate; try (intros c' E; discriminate).
  exfalso. now apply (H s).
Qed.

(** C3 (amended).  A caller-supplied array at a key whose default is an
    array is merged with the default index by index: the caller's elements
    stay where they are and the default's elements fill the indices past
    the caller's last one.  The default is replaced as a whole only when
    the caller's array is at least as long. *)
Theorem array_option_merged_by_index
    (x : value) (D : props) (p : list string)
    (u : list value) (d : list string) :
  default_options x = Ok D ->
  get_path (obj D) p = strs d ->
  get_path x p = arr u ->
  forallb defined u = true ->
  exists r,
    resolve x = Ok r
    /\ get_path r p = arr (u ++ map VStr (skipn (List.length u) d))
    /\ (List.length d <= List.length u -> get_path r p = arr u).
Proof.
  intros HD Hd Hx Hu. unfold resolve. rewrite HD. simpl.
  eexists. split; [reflexivity|].
  assert (Hobj : toObject x = x).
  { destruct x; try reflexivity; destruct p as [|k r]; try discriminate;
      simpl in Hx; rewrite get_path_undef in Hx; discriminate. }
  assert (E : get_path (defaultsDeep x D) p
              = arr (u ++ map VStr (skipn (List.length u) d))).
  { rewrite defaultsDeep_mergeValue, Hobj.
    destruct (default_options_inv _ _ HD) as [c [_ ->]].
    rewrite get_path_merge.
    - rewrite Hx, Hd. now apply mergeValue_arrays.
    - apply defaults_wf.
    - now rewrite Hx.
    - now rewrite Hd. }
  split; [exact E|].
  intros Hlen. rewrite E, skipn_all2 by exact Hlen.
  simpl. now rewrite app_nil_r.
Qed.





End Configuration.

(** C3, as stated, fails: [client.scripts.src = ["a.js"]] resolves to
    [["a.js", "*/**/*.js"]], the caller's element followed by the second
    default. *)
Lemma array_option_not_replaced :
  (r <- @resolve posix_host only_scripts_src ;;
   Ok (get_path r ["client"; "scripts"; "src"]))
  = Ok (strs ["a.js"; "*/**/*.js"])
  /\ (r <- @resolve posix_host only_scripts_src ;;
      Ok (get_path r ["client"; "scripts"; "src"]))
     <> Ok (strs ["a.js"]).
Proof. split; [reflexivity | vm_compute; discriminate]. Qed.

Lemma array_option_merged_by_index_witness :
  exists r,
    @resolve posix_host only_scripts_src = Ok r
    /\ get_path r ["client"; "scripts"; "src"]
       = arr ([VStr "a.js"]
              ++ map VStr (skipn 1 ["*.js"; "*/**/*.js"]))
    /\ (2 <= 1 -> get_path r ["client"; "scripts"; "src"] = arr [VStr "a.js"]).
Proof.
  apply (@array_option_merged_by_index posix_host only_scripts_src
           (@defaults posix_host "src/server/**/*.js")
           ["client"; "scripts"; "src"] [VStr "a.js"] ["*.js"; "*/**/*.js"]);
    reflexivity.
Defined.



(** ** Task names *)

Lemma append_inj_l p a b : p ++ a = p ++ b -> a = b.
Proof. induction p; simpl; intros H; auto. injection H. auto. Qed.

Lemma has_underscore_app p t : has_underscore (p ++ String "_" t) = true.
Proof.
  induction p as [|c p IH]; simpl; auto.
  rewrite IH. apply orb_true_r.
Qed.

Lemma all_digits_no_underscore s :
  all_digits s = true -> has_underscore s = false.
Proof.
  induction s as [|c s IH]; simpl; auto.
  intros H. apply andb_prop in H as [Hc Hs]. rewrite (IH Hs).
  destruct (Ascii.eqb c "_") eqn:E; auto.
  apply Ascii.eqb_eq in E. subst. discriminate.
Qed.

Lemma index_key_all_digits n : all_digits (index_key n) = true.
Proof.
  unfold index_key. induction (Nat.to_uint n); simpl; auto.
Qed.

Lemma NoDup_map_inj {A B} (f : A -> B) l :
  (forall a b, f a = f b -> a = b) -> NoDup l -> NoDup (map f l).
Proof.
  intros Hf. induction 1 as [|a l Hn Hnd IH]; simpl; constructor; auto.
  intros Hin. apply in_map_iff in Hin as [b [E Hb]].
  apply Hf in E. now subst.
Qed.

Section Tasks.
Context {host : Host}.

Lemma name_inj o a b : name o a = name o b -> a = b.
Proof.
  unfold name. destruct (truthy (prop o "prefix")); auto.
  intros H. apply append_inj_l in H. now injection H.
Qed.

Lemma name_value_string o t : name_value o (VStr t) = VStr (name o t).
Proof. unfold name_value, name. now destruct (truthy (prop o "prefix")). Qed.

Lemma allDefaultTaskNames_names o :
  allDefaultTaskNames o = map (name o) base_names.
Proof. reflexivity. Qed.

Lemma allDefaultTaskNames_NoDup o : NoDup (allDefaultTaskNames o).
Proof.
  rewrite allDefaultTaskNames_names.
  apply NoDup_map_inj.
  - intros a b. apply name_inj.
  - apply nodupb_NoDup. reflexivity.
Qed.

(** A task name is never an array index nor ["length"]. *)
Lemma array_member_name l o t :
  In t base_names -> array_member l (name o t) = VUndef.
Proof.
  intros Ht. unfold array_member, name.
  destruct (truthy (prop o "prefix")).
  - set (n := to_string (prop o "prefix") ++ "_" ++ t).
    assert (Hu : has_underscore n = true) by apply has_underscore_app.
    destruct (String.eqb n "length") eqn:E.
    + apply String.eqb_eq in E. rewrite E in Hu. discriminate.
    + unfold strs, arr, prop, get. rewrite lookup_indexed_none; auto.
      intros i Hi. rewrite <- Hi in Hu.
      rewrite all_digits_no_underscore in Hu by apply index_key_all_digits.
      discriminate.
  - assert (Hl : String.eqb t "length" = false).
    { simpl in Ht. repeat (destruct Ht as [<-|Ht]; [reflexivity|]).
      contradiction. }
    rewrite Hl. unfold strs, arr, prop, get.
    rewrite lookup_indexed_none; auto.
    simpl in Ht.
    repeat (destruct Ht as [<-|Ht];
            [eapply not_index_key; [reflexivity | reflexivity]|]).
    contradiction.
Qed.

(** ** The exclusion set *)

Lemma map_snd_indexed n l : map snd (indexed n l) = l.
Proof.
  revert n. induction l as [|v r IH]; intros n; simpl; auto.
  now rewrite IH.
Qed.

Lemma collection_values_arr l : collection_values (arr l) = l.
Proof. apply map_snd_indexed. Qed.


(** ** The registry *)

Lemma find_put_same t g : find_task (t_name t) (put_task t g) = Some t.
Proof.
  induction g as [|t' r IH]; simpl.
  - now rewrite String.eqb_refl.
  - destruct (String.eqb (t_name t) (t_name t')) eqn:E; simpl.
    + now rewrite String.eqb_refl.
    + now rewrite E.
Qed.

Lemma find_put_other n t g :
  n <> t_name t -> find_task n (put_task t g) = find_task n g.
Proof.
  intros Hne. apply String.eqb_neq in Hne.
  induction g as [|t' r IH]; simpl.
  - now rewrite Hne.
  - destruct (String.eqb (t_name t) (t_name t')) eqn:E; simpl.
    + apply String.eqb_eq in E. rewrite <- E, Hne. reflexivity.
    + now rewrite IH.
Qed.


Lemma gulp_task_made n arg g : gulp_task n arg g = put_task (made n arg) g.
Proof. destruct arg as [[d|b]|]; reflexivity. Qed.

Lemma made_name n arg : t_name (made n arg) = n.
Proof. destruct arg as [[d|b]|]; reflexivity. Qed.

Lemma find_task_other o ex n n' cb g :
  n <> n' -> find_task n (task o ex n' cb g) = find_task n g.
Proof.
  intros Hne. unfold task.
  destruct (isExcluded o ex n'); [destruct (truthy _)|]; auto;
    rewrite gulp_task_made; apply find_put_other; now rewrite made_name.
Qed.

Lemma find_task_same o ex n cb g :
  find_task n (task o ex n cb g)
  = if isExcluded o ex n then
      if truthy (prop o "warnExclusions")
      then Some {| t_name := n; t_dep := [];
                   t_fn := Some (ExcludedWarning n) |}
      else find_task n g
    else Some (made n cb).
Proof.
  unfold task.
  destruct (isExcluded o ex n); [destruct (truthy _)|]; auto;
    rewrite gulp_task_made.
  - apply (find_put_same (made n (Some (Fn (ExcludedWarning n))))).
  - rewrite <- (made_name n cb) at 1. apply find_put_same.
Qed.

Section Loop.
Variables o ex : value.

Let step (g : registry) (entry : string * list task_arg) : registry :=
  task o ex (fst entry) (hd_error (snd entry)) g.

Lemma find_loop_other n l g :
  ~ In n (map fst l) -> find_task n (fold_left step l g) = find_task n g.
Proof.
  revert g. induction l as [|[n' a] r IH]; intros g Hn; simpl; auto.
  rewrite IH by (intros H; apply Hn; now right).
  apply find_task_other. intros ->. apply Hn. now left.
Qed.

Lemma find_loop_entry n args l g :
  NoDup (map fst l) -> In (n, args) l ->
  find_task n (fold_left step l g)
  = find_task n (task o ex n (hd_error args) g).
Proof.
  revert g. induction l as [|[n' a] r IH]; intros g Hnd Hin;
    simpl in *; [contradiction|].
  inversion Hnd as [|? ? Hnotin Hnd']; subst.
  destruct Hin as [[= -> ->]|Hin].
  - now apply find_loop_other.
  - rewrite IH by assumption.
    assert (Hne : n <> n').
    { intros ->. apply Hnotin. change n' with (fst (n', args)).
      now apply in_map. }
    rewrite !find_task_same. unfold step. cbn [fst snd].
    now rewrite (find_task_other o ex n n' (hd_error a) g Hne).
Qed.

End Loop.

Lemma find_registered o g n args :
  In (n, args) (defaultTasks o) ->
  find_task n (register o g)
  = if isExcluded o (excludedTasks o) n then
      if truthy (prop o "warnExclusions")
      then Some {| t_name := n; t_dep := [];
                   t_fn := Some (ExcludedWarning n) |}
      else find_task n g
    else Some (made n (hd_error args)).
Proof.
  intros Hin. unfold register.
  rewrite (find_loop_entry o (excludedTasks o) n args);
    [apply find_task_same | apply allDefaultTaskNames_NoDup | exact Hin].
Qed.

Lemma isExcluded_includes o ex n :
  includes ex n = true -> isExcluded o ex n = true.
Proof. intros H. unfold isExcluded. now rewrite H. Qed.

(** C2 (amended).  For a task of the table whose registered name is in
    the exclusion set: when [warnExclusions] is truthy, registration
    installs under that name a task without dependencies whose function
    makes one call, the warning naming the task, and returns; when it is
    not, registration leaves that name as it found it. *)
Theorem excluded_task_registration
    (o : value) (fs : Files) (g : registry) (n : string)
    (args : list task_arg) :
  In (n, args) (defaultTasks o) ->
  includes (excludedTasks o) n = true ->
  (truthy (prop o "warnExclusions") = true ->
   find_task n (register o g)
   = Some {| t_name := n; t_dep := []; t_fn := Some (ExcludedWarning n) |}
   /\ run o fs (ExcludedWarning n)
      = Some ([Warn ("Task <" ++ n ++ "> has been explicity excluded!")],
              inl tt))
  /\ (truthy (prop o "warnExclusions") = false ->
      find_task n (register o g) = find_task n g).
Proof.
  intros Hin Hex.
  rewrite (find_registered o g n args Hin).
  rewrite (isExcluded_includes o _ n Hex).
  split; intros Hw; rewrite Hw; auto.
Qed.

End Tasks.

(** C2, as stated, fails: with [exclude = ["server"]] and no
    [warnExclusions], nothing is registered under [server]. *)
Lemma excluded_task_omitted_without_warning :
  includes (@excludedTasks posix_host (config_of exclude_server)) "server"
  = true
  /\ In "server" (@allDefaultTaskNames posix_host (config_of exclude_server))
  /\ (g <- @begin posix_host [] exclude_server ;;
      Ok (find_task "server" g)) = Ok None.
Proof. vm_compute. intuition. Qed.

Lemma excluded_task_registration_witness :
  (truthy (prop gulpfile_config "warnExclusions") = true ->
   find_task "server" (@register posix_host gulpfile_config [])
   = Some {| t_name := "server"; t_dep := [];
             t_fn := Some (ExcludedWarning "server") |}
   /\ @run posix_host gulpfile_config default_files (ExcludedWarning "server")
      = Some ([Warn ("Task <" ++ "server" ++ "> has been explicity excluded!")],
              inl tt))
  /\ (truthy (prop gulpfile_config "warnExclusions") = false ->
      find_task "server" (@register posix_host gulpfile_config [])
      = find_task "server" []).
Proof.
  apply (@excluded_task_registration posix_host gulpfile_config default_files
           [] "server" [Deps ["build"]; Fn Server]).
  - vm_compute. intuition.
  - reflexivity.
Defined.


(** ** Runs *)

Lemma bind_emit {A} e (k : M A) : (emit e ;;; k) = (e :: fst k, snd k).
Proof. unfold bindM, emit. now destruct k. Qed.

Lemma bind_lift_ok {A B} (a : A) (k : A -> M B) :
  (x <~ lift (Ok a) ;; k x) = k a.
Proof. unfold bindM, lift, ret. now destruct (k a). Qed.

Lemma bind_lift_throw {A B} e (k : A -> M B) :
  (x <~ lift (Throw e) ;; k x) = ([], inr (Raised e)).
Proof. reflexivity. Qed.

Ltac run_steps :=
  repeat first
    [ rewrite bind_emit
    | rewrite bind_lift_ok
    | rewrite bind_lift_throw
    | match goal with
      | |- context [lift ?r] => destruct r
      | H : context [lift ?r] |- _ => destruct r
      end ];
  cbn [fst snd].

Section Supervisor.
Context {host : Host}.

(** The task names the watches of the supervisor start are those of
    [html], [scripts] and [images]. *)
Lemma server_starts o fs glob ts :
  In (Watch glob (Start ts)) (trace (server o fs)) ->
  ts = [name o "html"] \/ ts = [name o "scripts"] \/ ts = [name o "images"].
Proof.
  unfold server, reloadable, log, trace. run_steps;
    cbn [In]; intros H;
    repeat (destruct H as [H|H];
            [try discriminate; try (injection H as _ <-; auto)|]);
    try contradiction; try discriminate;
    try (injection H as _ <-; auto).
Qed.

Lemma started_In matches t path x :
  In x (started matches t path) ->
  exists glob ts, In (Watch glob (Start ts)) t /\ In x ts.
Proof.
  induction t as [|e r IH]; simpl; [contradiction|].
  destruct e as [| | | |glob act| | | | | | | |];
    try (intros H; destruct (IH H) as [g [ts [H1 H2]]];
         exists g, ts; split; [now right | exact H2]).
  destruct act as [ts| |];
    try (intros H; destruct (IH H) as [g [ts' [H1 H2]]];
         exists g, ts'; split; [now right | exact H2]).
  destruct (matches glob path).
  - intros H. apply in_app_or in H as [H|H].
    + exists glob, ts. split; [now left | exact H].
    + destruct (IH H) as [g [ts' [H1 H2]]].
      exists g, ts'. split; [now right | exact H2].
  - intros H. destruct (IH H) as [g [ts' [H1 H2]]].
    exists g, ts'. split; [now right | exact H2].
Qed.

(** C4 does not hold of the code.  Whatever the configuration, the glob
    matcher and the changed path, no watch of the supervisor starts the
    [styles] task: the call meant to bind the styles sources passes
    [undefined] as its glob and no task list. *)
Theorem styles_change_starts_no_styles_task
    (o : value) (fs : Files) (matches : value -> string -> bool)
    (path : string) :
  count_occ string_dec (started matches (trace (server o fs)) path)
            (name o "styles") = 0
  /\ In (Watch VUndef NoAction) (trace (server o fs)).
Proof.
  split.
  - apply count_occ_not_In. intros H.
    apply started_In in H as [glob [ts [H1 H2]]].
    apply server_starts in H1 as [-> | [-> | ->]];
      destruct H2 as [H2|[]]; apply name_inj in H2; discriminate.
  - unfold server, trace.
    rewrite (array_member_name _ o "styles") by (simpl; auto 10).
    rewrite !bind_emit. cbn [fst In]. auto.
Qed.

(** C5.  On a change of [package.json] the watch function registered by
    the supervisor logs, runs [npm install], then [npm prune], then exits
    with code 0, starting or spawning nothing; a failing install stops the
    chain before the prune and the exit (and a failing prune before the
    exit). *)
Theorem package_json_change
    (o : value) (fs : Files) (sh : string -> Z) (ev : event) :
  substring_of "package.json" (ev_path ev) = true ->
  In (Watch (VStr "package.json")
        (Call (Reloadable "package.json" PackageChanged)))
     (trace (server o fs))
  /\ run_handler o sh (Reloadable "package.json" PackageChanged) ev
     = let said := Log [VStr "package.json changed, installing packages..."] in
       if Z.eqb (sh "npm install") 0 then
         if Z.eqb (sh "npm prune") 0
         then ([said; ExecSync "npm install"; ExecSync "npm prune"],
               inr (Exited 0))
         else ([said; ExecSync "npm install"; ExecSync "npm prune"],
               inr (Raised (ChildFailed (sh "npm prune"))))
       else ([said; ExecSync "npm install"],
             inr (Raised (ChildFailed (sh "npm install")))).
Proof.
  intros Hpath. split.
  - unfold server, reloadable, trace. rewrite !bind_emit. cbn [fst In]. auto 10.
  - unfold run_handler. rewrite Hpath.
    unfold run_callback, log, execSync.
    destruct (Z.eqb (sh "npm install") 0);
      destruct (Z.eqb (sh "npm prune") 0); reflexivity.
Qed.

(** C9 (amended).  The [html] body of [gulp-begin.js] deletes nothing: it
    reads the markup sources, pipes them through the minifier with
    [collapseWhitespace] and writes to [client.dest], and makes no other
    call. *)
Theorem html_body_calls (o : value) (fs : Files) :
  html o fs
  = match client <- member o "client" ;; member client "dest" with
    | Ok dest =>
        ([Src (src_html fs); Pipe "htmlmin" "{collapseWhitespace: true}";
          Dest dest], inl tt)
    | Throw e =>
        ([Src (src_html fs); Pipe "htmlmin" "{collapseWhitespace: true}"],
         inr (Raised e))
    end
  /\ existsb is_deletion (trace (html o fs)) = false.
Proof.
  unfold html, trace. rewrite !bind_emit.
  destruct (member o "client") as [client|e]; cbn [bind].
  - rewrite bind_lift_ok.
    destruct (member client "dest") as [dest|e];
      rewrite ?bind_lift_ok, ?bind_lift_throw; split; reflexivity.
  - rewrite bind_lift_throw. split; reflexivity.
Qed.

(** The earlier copy's [html] body starts by deleting what the source
    patterns match. *)
Lemma earlier_html_deletes_sources (o : value) (fs : Files) :
  hd_error (trace (earlier_html o fs)) = Some (DelSync (src_html fs)).
Proof. unfold earlier_html. now rewrite bind_emit. Qed.


End Supervisor.

Lemma package_json_change_witness :
  In (Watch (VStr "package.json")
        (Call (Reloadable "package.json" PackageChanged)))
     (trace (@server posix_host default_config default_files))
  /\ @run_handler posix_host default_config (fun _ => 0%Z)
       (Reloadable "package.json" PackageChanged) package_json_changed
     = let said := Log [VStr "package.json changed, installing packages..."] in
       if Z.eqb 0 0 then
         if Z.eqb 0 0
         then ([said; ExecSync "npm install"; ExecSync "npm prune"],
               inr (Exited 0))
         else ([said; ExecSync "npm install"; ExecSync "npm prune"],
               inr (Raised (ChildFailed 0)))
       else ([said; ExecSync "npm install"],
             inr (Raised (ChildFailed 0))).
Proof.
  apply (@package_json_change posix_host default_config default_files
           (fun _ => 0%Z) package_json_changed).
  reflexivity.
Defined.

(** C9, as stated, fails: on the default configuration the [html] body
    begins by reading the sources and deletes nothing. *)
Lemma html_body_deletes_nothing :
  hd_error (trace (html default_config default_files))
  = Some (Src ["src/client/*.html"])
  /\ existsb is_deletion (trace (html default_config default_files))
     = false.
Proof. split; reflexivity. Qed.

(** ** References between tasks *)

Section References.
Context {host : Host}.

Lemma base_name_registered_name o t :
  In t base_names -> In (name o t) (allDefaultTaskNames o).
Proof. intros H. rewrite allDefaultTaskNames_names. now apply in_map. Qed.



Lemma autotest_starts o glob ts :
  In (Watch glob (Start ts)) (trace (autotest o)) -> ts = ["test"].
Proof.
  unfold autotest, trace. run_steps; cbn [In]; intros H;
    try contradiction. destruct H as [H|[]]. now injection H as _ <-.
Qed.


End References.




(* ================================================================== *)
(** * Further properties of the code *)

(** ** The merge, path by path *)

Lemma lookup_None_keys k ps : lookup k ps = None <-> ~ In k (keys ps).
Proof.
  induction ps as [|[k' v] r IH]; simpl.
  - split; auto.
  - destruct (String.eqb k k') eqn:E.
    + apply String.eqb_eq in E. subst. split; [discriminate|].
      intros H. exfalso. apply H. now left.
    + apply String.eqb_neq in E. rewrite IH. split.
      * intros H [H1|H1]; [now subst | auto].
      * intros H H1. apply H. now right.
Qed.

Lemma mergeProps_fresh m sps :
  forall acc,
    NoDup (keys sps) ->
    (forall k, In k (keys sps) -> ~ In k (keys acc)) ->
    (forall k s, In (k, s) sps -> m VUndef s = s) ->
    mergeProps m acc sps = (acc ++ sps)%list.
Proof.
  induction sps as [|[k s] r IH]; intros acc Hnd Hdis Hm; simpl.
  - now rewrite app_nil_r.
  - inversion Hnd as [|? ? Hnotin Hnd']; subst.
    assert (Hl : lookup k acc = None).
    { apply lookup_None_keys. apply Hdis. now left. }
    unfold get. rewrite Hl, (Hm k s) by now left.
    rewrite set_absent by exact Hl.
    rewrite IH; auto.
    + now rewrite <- app_assoc.
    + intros k' Hk'. unfold keys. rewrite map_app, in_app_iff. simpl.
      intros [H|[H|[]]].
      * apply (Hdis k'); [now right | exact H].
      * subst. contradiction.
    + intros k' s' Hin. apply (Hm k' s'). now right.
Qed.

(** Where the caller has nothing, the merge is a copy of the default. *)
Lemma mergeValue_clone d : wfb d = true -> mergeValue VUndef d = d.
Proof.
  induction d as [| | | | |k ps IH] using value_ind'; intros Hwf;
    try reflexivity.
  apply wfb_obj in Hwf as [Hnd Hsub]. simpl. f_equal.
  rewrite mergeProps_fresh; auto.
  intros key s Hin. rewrite Forall_forall in IH.
  apply (IH _ Hin). eapply Hsub; eauto.
Qed.

Lemma mergeValue_undef_r v : mergeValue v VUndef = v.
Proof. now destruct v. Qed.

Lemma mergeValue_leaf_wins v d :
  defined v = true -> isObject v = false -> mergeValue v d = v.
Proof. destruct v; destruct d; simpl; auto; discriminate. Qed.

Lemma wfb_get k ps key : wfb (VObj k ps) = true -> wfb (get ps key) = true.
Proof.
  intros H. apply wfb_obj in H as [_ Hsub]. unfold get.
  destruct (lookup key ps) eqn:E; auto.
  apply lookup_In in E. eauto.
Qed.

Lemma wfb_get_path p : forall d, wfb d = true -> wfb (get_path d p) = true.
Proof.
  induction p as [|k r IH]; intros d H; simpl; auto.
  apply IH. destruct d; simpl; auto. eapply wfb_get; eauto.
Qed.

Lemma get_path_leaf v p :
  isObject v = false -> p <> [] -> get_path v p = VUndef.
Proof. apply get_path_not_object. Qed.

Lemma mergeValue_path p :
  forall u d,
    wfb d = true -> open_path u p = true ->
    get_path (mergeValue u d) p = mergeValue (get_path u p) (get_path d p).
Proof.
  induction p as [|k r IH]; intros u d Hwf Ho; [reflexivity|].
  destruct u as [| | | | |ku ops]; try discriminate.
  - rewrite mergeValue_clone by assumption.
    rewrite get_path_undef, mergeValue_clone; auto.
    now apply wfb_get_path.
  - destruct d as [| | | | |kd sps];
      try (cbn [mergeValue];
           match goal with
           | |- _ = mergeValue _ (get_path ?l _) =>
               rewrite (get_path_leaf l (k :: r)) by (auto; discriminate)
           end;
           now rewrite mergeValue_undef_r).
    rewrite mergeValue_objects. cbn [get_path prop open_path] in *.
    destruct (lookup k sps) as [dk|] eqn:El.
    + apply wfb_obj in Hwf as [Hnd Hsub]. apply lookup_In in El as Hin.
      assert (Ed : get sps k = dk) by (unfold get; now rewrite El).
      unfold get at 1.
      rewrite (mergeProps_lookup_in mergeValue k dk ops sps Hnd Hin), Ed.
      apply IH; eauto.
    + assert (Ed : get sps k = VUndef) by (unfold get; now rewrite El).
      rewrite Ed, get_path_undef, mergeValue_undef_r.
      unfold get at 1. rewrite mergeProps_lookup_other.
      * reflexivity.
      * now apply lookup_None_keys.
Qed.

Lemma open_path_defined p :
  forall u, defined (get_path u p) = true -> open_path u p = true.
Proof.
  induction p as [|k r IH]; intros u H; [reflexivity|].
  destruct u as [| | | | |ku ops];
    try (rewrite get_path_leaf in H by (auto; discriminate); discriminate).
  cbn [get_path prop open_path] in *. auto.
Qed.

Section Merging.
Context {host : Host}.

Lemma resolve_inv x r :
  resolve x = Ok r ->
  exists D, default_options x = Ok D /\ r = defaultsDeep x D.
Proof.
  unfold resolve. destruct (default_options x) as [D|e]; simpl;
    [|discriminate].
  intros [= <-]. eauto.
Qed.

Lemma default_options_wf x D : default_options x = Ok D -> wfb (obj D) = true.
Proof.
  intros H. apply default_options_inv in H as [c [_ ->]]. apply defaults_wf.
Qed.

Lemma resolved_path (x r : value) (D : props) (p : list string) :
  resolve x = Ok r ->
  default_options x = Ok D ->
  open_path (toObject x) p = true ->
  get_path r p = mergeValue (get_path (toObject x) p) (get_path (obj D) p).
Proof.
  intros Hr HD Ho. apply resolve_inv in Hr as [D' [HD' ->]].
  rewrite HD in HD'. injection HD' as <-.
  rewrite defaultsDeep_mergeValue. apply mergeValue_path; auto.
  eapply default_options_wf; eauto.
Qed.

(** X1.  Resolution is a merge path by path: at every key path above
    which the caller's options hold nothing but objects and [undefined],
    the resolved value is the merge of the caller's value and the default
    found at that path. *)
Theorem resolve_path (x r : value) (D : props) (p : list string) :
  resolve x = Ok r ->
  default_options x = Ok D ->
  open_path (toObject x) p = true ->
  get_path r p = mergeValue (get_path (toObject x) p) (get_path (obj D) p).
Proof.
  intros Hr HD Ho. apply resolve_inv in Hr as [D' [HD' ->]].
  rewrite HD in HD'. injection HD' as <-.
  rewrite defaultsDeep_mergeValue. apply mergeValue_path; auto.
  eapply default_options_wf; eauto.
Qed.

(** X2.  What the caller supplies wins: a value of the caller's options
    that is neither [undefined] nor an object (a string, a number, a
    boolean, [null]) is found unchanged at its key path in the resolved
    configuration, whatever the default there. *)
Theorem resolve_keeps_caller_value (x r : value) (p : list string) :
  resolve x = Ok r ->
  p <> [] ->
  defined (get_path x p) = true ->
  isObject (get_path x p) = false ->
  get_path r p = get_path x p.
Proof.
  intros Hr Hp Hdef Hleaf.
  destruct (resolve_inv _ _ Hr) as [D [HD _]].
  assert (Hx : toObject x = x).
  { destruct x; try reflexivity;
      rewrite get_path_leaf in Hdef by auto; discriminate. }
  rewrite (resolved_path x r D p Hr HD), Hx.
  - now apply mergeValue_leaf_wins.
  - rewrite Hx. now apply open_path_defined.
Qed.


(** X3.  Where the caller supplies nothing, the default is taken as it
    is: at a key path that is [undefined] in the caller's options, with
    only objects above it, the resolved configuration holds the default
    value of that path. *)
Theorem resolve_fills_default (x r : value) (D : props) (p : list string) :
  resolve x = Ok r ->
  default_options x = Ok D ->
  open_path (toObject x) p = true ->
  get_path (toObject x) p = VUndef ->
  get_path r p = get_path (obj D) p.
Proof.
  intros Hr HD Ho Hu. rewrite (resolved_path x r D p Hr HD Ho), Hu.
  apply mergeValue_clone. apply wfb_get_path.
  eapply default_options_wf; eauto.
Qed.

(** X4.  Resolution leaves every top-level key that has no default as the
    caller gave it: [prefix], [exclude], [only] and [warnExclusions] reach
    the task table untouched. *)
Theorem resolve_passes_other_keys (x r : value) (k : string) :
  resolve x = Ok r ->
  ~ In k ["root"; "port"; "server"; "client"; "test"] ->
  prop r k = prop (toObject x) k.
Proof.
  intros Hr Hk. apply resolve_inv in Hr as [D [HD ->]].
  apply default_options_inv in HD as [c [_ ->]].
  unfold defaultsDeep.
  destruct (toObject x) as [| | | | |kx ops] eqn:E;
    try (destruct x; discriminate).
  cbn [prop]. unfold get, baseMerge.
  now rewrite mergeProps_lookup_other.
Qed.


Lemma resolved_without_options (x : value) :
  x = VUndef \/ x = VNull \/ x = obj [] ->
  resolve x = Ok (obj (defaults (path_join ["src/server"; "**/*.js"]))).
Proof.
  intros H.
  assert (E : resolve x
              = Ok (VObj KPlain
                      (baseMerge []
                         (defaults (path_join ["src/server"; "**/*.js"]))))).
  { destruct H as [-> | [-> | ->]]; reflexivity. }
  rewrite E. f_equal.
  exact (mergeValue_clone _
           (defaults_wf (path_join ["src/server"; "**/*.js"]))).
Qed.

(** X6.  Called without options ([undefined], [null] or an empty
    object), resolution returns exactly the defaults, on every host. *)
Theorem resolve_without_options (x : value) :
  x = VUndef \/ x = VNull \/ x = obj [] ->
  resolve x = Ok (obj (defaults (path_join ["src/server"; "**/*.js"]))).
Proof.
  intros H.
  assert (E : resolve x
              = Ok (VObj KPlain
                      (baseMerge []
                         (defaults (path_join ["src/server"; "**/*.js"]))))).
  { destruct H as [-> | [-> | ->]]; reflexivity. }
  rewrite E. f_equal.
  exact (mergeValue_clone _
           (defaults_wf (path_join ["src/server"; "**/*.js"]))).
Qed.

End Merging.

(** ** File sets *)

Section FileSets.
Context {host : Host}.

Lemma all_strings_map l : all_strings (map VStr l) = Some l.
Proof. induction l as [|s r IH]; simpl; auto. now rewrite IH. Qed.

Lemma mapM_join pre l :
  mapM (fun file => join_values (map VStr pre ++ [file])%list) (map VStr l)
  = Ok (map (fun f => path_join (pre ++ [f])%list) l).
Proof.
  induction l as [|f r IH]; simpl; auto.
  rewrite IH. unfold join_values.
  change [VStr f] with (map VStr [f]).
  now rewrite <- map_app, all_strings_map.
Qed.

Lemma array_elements_strs l : array_elements (strs l) = Ok (map VStr l).
Proof. unfold strs, arr, array_elements. now rewrite map_snd_indexed. Qed.

Lemma truthy_segment f :
  (if truthy (optional_string f) then [optional_string f] else [])
  = map VStr (segment f).
Proof.
  destruct f as [s|]; simpl; auto. now destruct (String.eqb s "").
Qed.

Lemma member_object v k : isObject v = true -> member v k = Ok (prop v k).
Proof. destruct v; simpl; auto; discriminate. Qed.

Lemma prop_array_object v k l : prop v k = strs l -> isObject v = true.
Proof. destruct v; simpl; auto; discriminate. Qed.

(** X7.  The source file set of a category: one path per pattern, in the
    order of the patterns, each pattern joined under [client.cwd] and the
    category's [cwd], a segment that is absent or empty being left out. *)
Theorem buildSrc_paths
    (o client scope : value) (c s : option string) (l : list string) :
  member o "client" = Ok client ->
  isObject client = true ->
  prop client "cwd" = optional_string c ->
  prop scope "cwd" = optional_string s ->
  prop scope "src" = strs l ->
  buildSrc o scope
  = Ok (map (fun f => path_join (segment c ++ segment s ++ [f])%list) l).
Proof.
  intros Ho Hc Hcwd Hs Hsrc.
  pose proof (prop_array_object _ _ _ Hsrc) as Hscope.
  unfold buildSrc, buildFiles. rewrite Ho. cbn [bind String.eqb Ascii.eqb Bool.eqb].
  rewrite !(member_object client), !(member_object scope) by assumption.
  cbn [bind]. rewrite Hcwd, Hs, Hsrc, !truthy_segment, array_elements_strs.
  cbn [bind]. rewrite <- map_app, mapM_join.
  f_equal. apply map_ext. intros f. now rewrite <- app_assoc.
Qed.

(** X8.  The library file set of a category: one path per pattern, in
    order, each joined under [client.lib] alone; neither [client.cwd] nor
    the category's [cwd] takes part. *)
Theorem buildLib_paths
    (o client scope : value) (lib : string) (l : list string) :
  member o "client" = Ok client ->
  prop client "lib" = VStr lib ->
  prop scope "lib" = strs l ->
  buildLib o scope = Ok (map (fun f => path_join [lib; f]) l).
Proof.
  intros Ho Hlib Hl.
  pose proof (prop_array_object _ _ _ Hl) as Hscope.
  assert (Hc : isObject client = true)
    by (destruct client; simpl in *; auto; discriminate).
  unfold buildLib, buildFiles. rewrite Ho. cbn [bind String.eqb Ascii.eqb Bool.eqb].
  rewrite (member_object client), (member_object scope) by assumption.
  cbn [bind]. rewrite Hlib, Hl, array_elements_strs. cbn [bind].
  apply (mapM_join [lib] l).
Qed.

(** X9.  Called without options the module never raises, on any host: it
    derives the file sets of the defaults and registers its tasks. *)
Theorem begin_without_options (g : registry) (x : value) :
  x = VUndef \/ x = VNull \/ x = obj [] ->
  let D := obj (defaults (path_join ["src/server"; "**/*.js"])) in
  files D
  = Ok {| src_html := [path_join ["src/client"; "*.html"]];
          src_templates := [path_join ["src/client"; "views"; "**/*.html"]];
          src_scripts := [path_join ["src/client"; "scripts"; "*.js"];
                          path_join ["src/client"; "scripts"; "*/**/*.js"]];
          src_styles_main :=
            [path_join ["src/client"; "styles"; "styles.scss"]];
          src_styles_include := [path_join ["src/client"; "styles"]];
          src_images := [path_join ["src/client"; "images"; "**/*.png"]];
          lib_scripts := [];
          lib_styles_include := [] |}
  /\ begin g x = Ok (register D g).
Proof.
  intros H D.
  assert (Hf : files D
    = Ok {| src_html := [path_join ["src/client"; "*.html"]];
            src_templates := [path_join ["src/client"; "views"; "**/*.html"]];
            src_scripts := [path_join ["src/client"; "scripts"; "*.js"];
                            path_join ["src/client"; "scripts"; "*/**/*.js"]];
            src_styles_main :=
              [path_join ["src/client"; "styles"; "styles.scss"]];
            src_styles_include := [path_join ["src/client"; "styles"]];
            src_images := [path_join ["src/client"; "images"; "**/*.png"]];
            lib_scripts := [];
            lib_styles_include := [] |}) by reflexivity.
  split; [exact Hf|].
  unfold begin. rewrite (resolved_without_options x H). cbn [bind].
  fold D. now rewrite Hf.
Qed.

End FileSets.

Section FileSetErrors.
Context {host : Host}.

Lemma resolve_throws_TypeError x e : resolve x = Throw e -> e = TypeError.
Proof.
  unfold resolve, default_options, join_values.
  destruct (all_strings _); simpl; [discriminate|]. now intros [= <-].
Qed.

Lemma array_elements_not_array v :
  is_array v = false -> array_elements v = Throw TypeError.
Proof. destruct v as [| | | | |[| |p] ps]; simpl; auto; discriminate. Qed.

Lemma files_html_src_not_array r :
  isObject r = true ->
  isObject (prop r "client") = true ->
  isObject (prop (prop r "client") "html") = true ->
  is_array (prop (prop (prop r "client") "html") "src") = false ->
  files r = Throw TypeError.
Proof.
  intros Hr Hc Hh Hs. unfold files.
  rewrite (member_object r) by assumption. cbn [bind].
  rewrite (member_object (prop r "client") "html") by assumption. cbn [bind].
  unfold buildSrc at 1. unfold buildFiles.
  rewrite (member_object r) by assumption.
  cbn [bind String.eqb Ascii.eqb Bool.eqb].
  rewrite (member_object (prop r "client") "cwd") by assumption.
  cbn [bind].
  rewrite !(member_object (prop (prop r "client") "html")) by assumption.
  cbn [bind]. now rewrite array_elements_not_array.
Qed.

Lemma mergeValue_keeps_object k ps d : isObject (mergeValue (VObj k ps) d) = true.
Proof. now destruct d. Qed.

Lemma mergeValue_not_array v d :
  defined v = true -> is_array v = false -> is_array (mergeValue v d) = false.
Proof.
  destruct v as [| | | | |[| |p] ps]; destruct d; simpl; auto; discriminate.
Qed.

(** X10.  A [client.html.src] that is given and is not an array (a bare
    string, say) makes the module raise a [TypeError]: the value wins over
    the default array and the file-set derivation calls [map] on it. *)
Theorem begin_html_src_not_array (g : registry) (x : value) :
  defined (get_path x ["client"; "html"; "src"]) = true ->
  is_array (get_path x ["client"; "html"; "src"]) = false ->
  begin g x = Throw TypeError.
Proof.
  intros Hdef Harr. unfold begin.
  destruct (resolve x) as [r|e] eqn:Hr; cbn [bind];
    [|now rewrite (resolve_throws_TypeError _ _ Hr)].
  destruct (resolve_inv _ _ Hr) as [D [HD Er]].
  destruct (default_options_inv _ _ HD) as [c [_ ED]].
  destruct x as [| | | | |kx ox]; try discriminate.
  assert (Hopen : open_path (toObject (VObj kx ox)) ["client"; "html"; "src"]
                  = true) by now apply open_path_defined.
  pose proof (resolved_path _ _ _ ["client"; "html"; "src"] Hr HD Hopen) as H3.
  cbn [get_path prop toObject open_path] in *.
  destruct (get ox "client") as [| | | | |kc oc] eqn:Ec; try discriminate.
  cbn [prop open_path] in *.
  destruct (get oc "html") as [| | | | |kh oh] eqn:Eh; try discriminate.
  cbn [prop open_path] in *.
  assert (H1 : prop r "client"
               = mergeValue (VObj kc oc) (get_path (obj D) ["client"])).
  { change (prop r "client") with (get_path r ["client"]).
    rewrite (resolved_path _ r D ["client"] Hr HD) by reflexivity.
    cbn [get_path prop toObject]. now rewrite Ec. }
  assert (H2 : prop (prop r "client") "html"
               = mergeValue (VObj kh oh) (get_path (obj D) ["client"; "html"])).
  { change (prop (prop r "client") "html")
      with (get_path r ["client"; "html"]).
    rewrite (resolved_path _ r D ["client"; "html"] Hr HD).
    - cbn [get_path prop toObject]. rewrite Ec. cbn [prop].
      now rewrite Eh.
    - cbn [toObject open_path]. now rewrite Ec. }
  rewrite files_html_src_not_array; cbn [bind]; auto.
  - subst r. unfold defaultsDeep. reflexivity.
  - rewrite H1. apply mergeValue_keeps_object.
  - rewrite H2. apply mergeValue_keeps_object.
  - rewrite H3. now apply mergeValue_not_array.
Qed.

End FileSetErrors.

(** ** The task table and the exclusion filter *)

Lemma base_names_no_underscore t :
  In t base_names -> has_underscore t = false.
Proof.
  unfold base_names. cbn [In]. intros H.
  repeat (destruct H as [<-|H]; [reflexivity|]). contradiction.
Qed.

Lemma existsb_is_string n L :
  existsb (is_string n) (map VStr L) = existsb (String.eqb n) L.
Proof.
  induction L as [|t r IH]; simpl; auto.
  now rewrite IH, String.eqb_sym.
Qed.

Lemma includes_strs L n : includes (strs L) n = existsb (String.eqb n) L.
Proof.
  unfold includes, strs, arr, collection_values.
  rewrite map_snd_indexed. apply existsb_is_string.
Qed.

Section Filter.
Context {host : Host}.

Lemma name_underscore o t :
  truthy (prop o "prefix") = true -> has_underscore (name o t) = true.
Proof. intros H. unfold name. rewrite H. apply has_underscore_app. Qed.

Lemma name_no_prefix o t : truthy (prop o "prefix") = false -> name o t = t.
Proof. intros H. unfold name. now rewrite H. Qed.

Lemma base_name_not_registered_name o t :
  truthy (prop o "prefix") = true -> In t base_names ->
  ~ In t (allDefaultTaskNames o).
Proof.
  intros Hp Ht Hin. rewrite allDefaultTaskNames_names in Hin.
  apply in_map_iff in Hin as [b [E _]].
  pose proof (name_underscore o b Hp) as Hu. rewrite E in Hu.
  now rewrite (base_names_no_underscore t Ht) in Hu.
Qed.

(** X11.  For every prefix the thirteen task names are pairwise
    distinct, so no entry of the task table replaces another. *)
Theorem task_names_distinct (o : value) :
  NoDup (allDefaultTaskNames o)
  /\ List.length (allDefaultTaskNames o) = 13.
Proof. split; [apply allDefaultTaskNames_NoDup | reflexivity]. Qed.

(** X12.  Registration touches only the names of the task table: a task
    the host registered under any other name is found unchanged
    afterwards. *)
Theorem register_keeps_other_tasks (o : value) (g : registry) (n : string) :
  ~ In n (allDefaultTaskNames o) ->
  find_task n (register o g) = find_task n g.
Proof. intros H. unfold register. now apply find_loop_other. Qed.

(** X13.  A task the table declares with a dependency list followed by
    a function ([scripts], [server], [test]) is registered, when it is
    not excluded, with the dependency list and no function: the
    registration loop passes on the first element of the argument array
    only. *)
Theorem task_with_dependencies_loses_function
    (o : value) (g : registry) (n : string) (d : list string)
    (rest : list task_arg) :
  In (n, Deps d :: rest) (defaultTasks o) ->
  isExcluded o (excludedTasks o) n = false ->
  find_task n (register o g)
  = Some {| t_name := n; t_dep := d; t_fn := None |}.
Proof.
  intros Hin Hex. rewrite (find_registered o g n _ Hin), Hex. reflexivity.
Qed.

Lemma in_difference n xs ys :
  existsb (String.eqb n) (difference xs ys)
  = existsb (String.eqb n) xs && negb (existsb (is_string n) ys).
Proof.
  unfold difference. induction xs as [|x r IH]; simpl; auto.
  destruct (existsb (is_string x) ys) eqn:Ex; simpl; rewrite IH.
  - destruct (String.eqb n x) eqn:E; auto.
    apply String.eqb_eq in E. subst. rewrite Ex. simpl.
    now rewrite andb_false_r.
  - destruct (String.eqb n x) eqn:E; auto.
    apply String.eqb_eq in E. subst. now rewrite Ex.
Qed.

Lemma existsb_only_names o t l :
  existsb (is_string (name o t)) (map (name_value o) (map VStr l))
  = existsb (String.eqb t) l.
Proof.
  induction l as [|s r IH]; simpl; auto.
  rewrite IH, name_value_string. simpl. f_equal.
  destruct (String.eqb s t) eqn:E.
  - apply String.eqb_eq in E. subst. now rewrite !String.eqb_refl.
  - destruct (String.eqb (name o s) (name o t)) eqn:E'.
    + apply String.eqb_eq, name_inj in E'. subst.
      now rewrite String.eqb_refl in E.
    + now rewrite String.eqb_sym, E.
Qed.

Lemma registered_name_In o t :
  In t base_names -> existsb (String.eqb (name o t)) (allDefaultTaskNames o) = true.
Proof. intros H. apply existsb_eqb_In. now apply base_name_registered_name. Qed.

Lemma double_name_not_registered o t :
  truthy (prop o "prefix") = true ->
  existsb (String.eqb (name o (name o t))) (allDefaultTaskNames o) = false.
Proof.
  intros Hp. destruct (existsb _ _) eqn:E; auto.
  apply existsb_eqb_In in E. rewrite allDefaultTaskNames_names in E.
  apply in_map_iff in E as [b [E Hb]]. apply name_inj in E.
  pose proof (name_underscore o t Hp) as Hu. rewrite <- E in Hu.
  now rewrite (base_names_no_underscore b Hb) in Hu.
Qed.

(** X14.  The allow-list takes base names: with no exclude list and
    [only] an array of strings, a task of the table is excluded exactly
    when its unprefixed base name is not in [only], whatever the prefix. *)
Theorem only_keeps_listed_base_names
    (o : value) (l : list string) (t : string) :
  truthy (prop o "exclude") = false ->
  prop o "only" = strs l ->
  In t base_names ->
  isExcluded o (excludedTasks o) (name o t) = negb (existsb (String.eqb t) l).
Proof.
  intros He Ho Ht.
  assert (Ex : excludedTasks o
               = strs (difference (allDefaultTaskNames o)
                         (map (name_value o) (map VStr l)))).
  { unfold excludedTasks. rewrite He, Ho.
    change (truthy (strs l)) with true. cbv iota.
    now rewrite (collection_values_arr (map VStr l)
                 : collection_values (strs l) = map VStr l). }
  unfold isExcluded. rewrite Ex, !includes_strs, !in_difference.
  rewrite (registered_name_In o t Ht), existsb_only_names. cbn [andb].
  destruct (truthy (prop o "prefix")) eqn:Hp.
  - rewrite (double_name_not_registered o t Hp). cbn [andb].
    apply orb_false_r.
  - rewrite !(name_no_prefix o _ Hp).
    rewrite <- (name_no_prefix o t Hp) at 2 3.
    rewrite (registered_name_In o t Ht), existsb_only_names. cbn [andb].
    apply orb_diag.
Qed.

Lemma existsb_eqb_false n l :
  (forall s, In s l -> s <> n) -> existsb (String.eqb n) l = false.
Proof.
  intros H. destruct (existsb _ _) eqn:E; auto.
  apply existsb_eqb_In in E. exfalso. now apply (H n).
Qed.

(** X15.  The exclude list does not take base names once a prefix is
    set: with a truthy prefix, an exclude array made of unprefixed base
    names excludes no task at all. *)
Theorem exclude_base_names_under_prefix
    (o : value) (l : list string) (t : string) :
  truthy (prop o "prefix") = true ->
  prop o "exclude" = strs l ->
  incl l base_names ->
  isExcluded o (excludedTasks o) (name o t) = false.
Proof.
  intros Hp He Hl.
  assert (Ex : excludedTasks o = strs l).
  { unfold excludedTasks. now rewrite He. }
  assert (Hno : forall n, has_underscore n = true ->
                existsb (String.eqb n) l = false).
  { intros n Hn. apply existsb_eqb_false. intros s Hs ->.
    now rewrite (base_names_no_underscore n (Hl n Hs)) in Hn. }
  unfold isExcluded. rewrite Ex, !includes_strs.
  rewrite !Hno; auto using name_underscore.
Qed.

(** X16.  With a prefix set, what the [autotest] watch starts is not a
    task of this module: no unprefixed base name, [test] among them, is
    registered by it. *)
Theorem autotest_target_unregistered
    (o : value) (glob : value) (ts : list string) (n : string) :
  truthy (prop o "prefix") = true ->
  In (Watch glob (Start ts)) (trace (autotest o)) ->
  In n ts ->
  find_task n (register o []) = None.
Proof.
  intros Hp Hw Hn. apply autotest_starts in Hw. subst ts.
  destruct Hn as [<-|[]].
  unfold register. rewrite find_loop_other; [reflexivity|].
  apply base_name_not_registered_name; auto.
  apply existsb_eqb_In. reflexivity.
Qed.

End Filter.

(** ** Watch handlers, [autotest] and [dev] *)

Section Handlers.
Context {host : Host}.

(** X17.  On a change of [bower.json] the watch function logs, runs
    [bower install] and then spawns gulp on the (prefixed) [build] task,
    the process ending when that child closes; it does not exit by
    itself, and a failing install raises before anything is spawned. *)
Theorem bower_json_change (o : value) (sh : string -> Z) (ev : event) :
  substring_of "bower.json" (ev_path ev) = true ->
  run_handler o sh (Reloadable "bower.json" BowerChanged) ev
  = let said := Log [VStr "bower.json changed, installing packages..."] in
    if Z.eqb (sh "bower install") 0
    then ([said; ExecSync "bower install";
           Spawn (if String.eqb platform "win32" then "gulp.cmd" else "gulp")
                 [name o "build"] ExitWithChildCode],
          inl tt)
    else ([said; ExecSync "bower install"],
          inr (Raised (ChildFailed (sh "bower install")))).
Proof.
  intros Hpath. unfold run_handler. rewrite Hpath.
  unfold run_callback, log, execSync, gulp_command.
  destruct (Z.eqb (sh "bower install") 0);
    destruct (String.eqb platform "win32"); reflexivity.
Qed.

Lemma flatten_strs a b : flatten [strs a; strs b] = map VStr (a ++ b).
Proof.
  unfold flatten, strs, arr. simpl.
  now rewrite !map_snd_indexed, app_nil_r, map_app.
Qed.

(** X18.  The [autotest] body sets one watch: on the server watch globs
    followed by the test watch globs, in that order, starting the task
    named [test]. *)
Theorem autotest_watch (o : value) (a b : list string) :
  get_path o ["server"; "watch"] = strs a ->
  get_path o ["test"; "watch"] = strs b ->
  autotest o = ([Watch (strs (a ++ b)) (Start ["test"])], inl tt).
Proof.
  cbn [get_path]. intros Ha Hb.
  pose proof (prop_array_object _ _ _ Ha) as Hs.
  pose proof (prop_array_object _ _ _ Hb) as Ht.
  assert (Ho : isObject o = true)
    by (destruct o; simpl in *; auto; discriminate).
  unfold autotest.
  rewrite !(member_object o), bind_lift_ok by assumption.
  rewrite (member_object (prop o "server")), bind_lift_ok by assumption.
  rewrite bind_lift_ok.
  rewrite (member_object (prop o "test")), bind_lift_ok by assumption.
  now rewrite Ha, Hb, flatten_strs.
Qed.

(** X19.  The [dev] body installs once and then keeps one [gulp demon]
    child alive: it spawns the (prefixed) [demon] task again each time the
    child closes with code 0 and stops for good at the first other code,
    so after children closing with [codes] it has spawned one more time
    than there are leading zeros; a failing install spawns nothing. *)
Theorem dev_respawns (o : value) (sh : string -> Z) (codes : list Z) :
  dev o sh codes
  = if Z.eqb (sh "npm install") 0
    then (DevExec "npm install"
          :: repeat (DevSpawn gulp_command [name o "demon"])
                    (S (leading_zeros codes)),
          None)
    else ([DevExec "npm install"], Some (ChildFailed (sh "npm install"))).
Proof.
  unfold dev. destruct (Z.eqb (sh "npm install") 0); [|reflexivity].
  do 2 f_equal. induction codes as [|c r IH]; [reflexivity|].
  cbn [spawnChild leading_zeros]. destruct (Z.eqb c 0); [|reflexivity].
  rewrite IH. reflexivity.
Qed.

End Handlers.

(** ** Witnesses on the sample host *)

Lemma resolve_path_witness :
  get_path (config_of server_cwd_app) ["server"; "cwd"]
  = mergeValue (VStr "app") (VStr "src/server").
Proof.
  apply (@resolve_path posix_host server_cwd_app (config_of server_cwd_app)
           (@defaults posix_host "app/**/*.js") ["server"; "cwd"]);
    reflexivity.
Defined.

Lemma resolve_keeps_caller_value_witness :
  get_path (config_of server_cwd_app) ["server"; "cwd"] = VStr "app".
Proof.
  apply (@resolve_keeps_caller_value posix_host server_cwd_app
           (config_of server_cwd_app) ["server"; "cwd"]);
    try reflexivity. discriminate.
Defined.

Lemma resolve_fills_default_witness :
  get_path (config_of server_cwd_app) ["client"; "dest"] = VStr "public".
Proof.
  apply (@resolve_fills_default posix_host server_cwd_app
           (config_of server_cwd_app) (@defaults posix_host "app/**/*.js")
           ["client"; "dest"]);
    reflexivity.
Defined.

Lemma resolve_passes_other_keys_witness :
  prop gulpfile_config "exclude" = strs ["server"].
Proof.
  apply (@resolve_passes_other_keys posix_host gulpfile_options
           gulpfile_config "exclude").
  - reflexivity.
  - simpl. intuition discriminate.
Defined.


Lemma resolve_without_options_witness :
  @resolve posix_host VNull
  = Ok (obj (@defaults posix_host "src/server/**/*.js")).
Proof.
  apply (@resolve_without_options posix_host VNull). right. left. reflexivity.
Defined.

Lemma buildSrc_paths_witness :
  @buildSrc posix_host default_config
    (get_path default_config ["client"; "html"])
  = Ok ["src/client/*.html"].
Proof.
  apply (@buildSrc_paths posix_host default_config
           (prop default_config "client")
           (get_path default_config ["client"; "html"])
           (Some "src/client") None ["*.html"]); reflexivity.
Defined.

Lemma buildLib_paths_witness :
  @buildLib posix_host (config_of scripts_lib_sample)
    (get_path (config_of scripts_lib_sample) ["client"; "scripts"])
  = Ok ["bower_components/angular/angular.js"].
Proof.
  apply (@buildLib_paths posix_host (config_of scripts_lib_sample)
           (prop (config_of scripts_lib_sample) "client")
           (get_path (config_of scripts_lib_sample) ["client"; "scripts"])
           "bower_components" ["angular/angular.js"]); reflexivity.
Defined.

Lemma begin_without_options_witness :
  @files posix_host default_config = Ok default_files
  /\ @begin posix_host [] VUndef = Ok (@register posix_host default_config []).
Proof.
  apply (@begin_without_options posix_host [] VUndef). left. reflexivity.
Defined.

Lemma begin_html_src_not_array_witness :
  @begin posix_host [] html_src_string = Throw TypeError.
Proof.
  apply (@begin_html_src_not_array posix_host [] html_src_string);
    reflexivity.
Defined.

Lemma register_keeps_other_tasks_witness :
  find_task "default" (@register posix_host gulpfile_config gulpfile_registry)
  = Some {| t_name := "default"; t_dep := ["test"]; t_fn := None |}.
Proof.
  apply (@register_keeps_other_tasks posix_host gulpfile_config
           gulpfile_registry "default").
  simpl. intuition discriminate.
Defined.

Lemma task_with_dependencies_loses_function_witness :
  find_task "scripts" (@register posix_host default_config [])
  = Some {| t_name := "scripts"; t_dep := ["jshint"]; t_fn := None |}.
Proof.
  apply (@task_with_dependencies_loses_function posix_host default_config []
           "scripts" ["jshint"] [Fn Scripts]).
  - simpl. auto.
  - reflexivity.
Defined.

Lemma only_keeps_listed_base_names_witness :
  @isExcluded posix_host (config_of only_html_prefixed)
    (@excludedTasks posix_host (config_of only_html_prefixed)) "p_html"
  = false.
Proof.
  apply (@only_keeps_listed_base_names posix_host
           (config_of only_html_prefixed) ["html"] "html").
  - reflexivity.
  - reflexivity.
  - simpl. auto.
Defined.

Lemma exclude_base_names_under_prefix_witness :
  @isExcluded posix_host (config_of exclude_html_prefixed)
    (@excludedTasks posix_host (config_of exclude_html_prefixed)) "p_html"
  = false.
Proof.
  apply (@exclude_base_names_under_prefix posix_host
           (config_of exclude_html_prefixed) ["html"] "html").
  - reflexivity.
  - reflexivity.
  - intros s [<-|[]]. simpl. auto.
Defined.

Lemma autotest_target_unregistered_witness :
  find_task "test" (@register posix_host (config_of prefix_p) []) = None.
Proof.
  apply (@autotest_target_unregistered posix_host (config_of prefix_p)
           (strs ["src/server/**/*.js"; "*.js"; "test/**/*.js"])
           ["test"] "test").
  - reflexivity.
  - simpl. auto.
  - simpl. auto.
Defined.

Lemma bower_json_change_witness :
  @run_handler posix_host default_config (fun _ => 0%Z)
    (Reloadable "bower.json" BowerChanged) bower_json_changed
  = ([Log [VStr "bower.json changed, installing packages..."];
      ExecSync "bower install";
      Spawn "gulp" ["build"] ExitWithChildCode],
     inl tt).
Proof.
  apply (@bower_json_change posix_host default_config (fun _ => 0%Z)
           bower_json_changed).
  reflexivity.
Defined.

Lemma autotest_watch_witness :
  autotest default_config
  = ([Watch (strs (["src/server/**/*.js"; "*.js"] ++ ["test/**/*.js"]))
        (Start ["test"])],
     inl tt).
Proof.
  apply (autotest_watch default_config
           ["src/server/**/*.js"; "*.js"] ["test/**/*.js"]); reflexivity.
Defined.
